(** * AsyncioList: a lock-protected list with a change event

    A shallow embedding of [asyncioList/AsyncioList.py] and the properties
    of its methods.

    The class wraps a Python [list] ([self._items]), an [asyncio.Lock]
    ([self._lock]) and an [asyncio.Event] ([self._change_event]).

    - [PyBuiltins]: the interpreter's list methods the class calls
      ([list.insert], [list.remove], [list.pop], [list.index], slicing,
      [list.sort]), after their CPython behaviour.
    - [AsyncioList]: the state of a container, the small monad its
      coroutines run in (return, raise, or stay suspended on the lock),
      and the methods, written as in the source.
    - [PyBuiltinsFacts], [AsyncioListFacts]: the properties of the list
      methods and of the container's methods.
    - [PyBuiltinsSpec], [AsyncioListUsage]: more on both, and the
      methods as their callers use them. *)

From Stdlib Require Import ZArith Lia.
From stdpp Require Import base decidable option list sorting gmap strings.

Local Open Scope Z_scope.

(** ** The interpreter's list methods *)

Module PyBuiltins.

(** What the elements' own comparison methods answer: [py_eq a b] is
    [a == b] and [py_ne a b] is [a != b], as truth values.  Nothing is
    assumed of them: an element need not equal itself (a NaN does not),
    and [!=] need not be the negation of [==]. *)
Class PyCompare (T : Type) := {
  py_eq : T → T → bool;
  py_ne : T → T → bool
}.

(** The range of a C [Py_ssize_t] on a 64-bit interpreter: an index
    argument of [list.insert] or [list.pop] outside it is refused with
    [OverflowError]. *)
Definition PY_SSIZE_T_MAX : Z := 2 ^ 63 - 1.

Definition fits_ssize_t (i : Z) : bool :=
  (- PY_SSIZE_T_MAX - 1 <=? i) && (i <=? PY_SSIZE_T_MAX).

(** The index argument as a [Py_ssize_t], for a list of [n] elements;
    [None] stands for [OverflowError].  No list has more than
    [PY_SSIZE_T_MAX] elements, so an index within [[-n, n]] always
    converts. *)
Definition as_ssize_t (n index : Z) : option Z :=
  if fits_ssize_t index || ((- n <=? index) && (index <=? n))
  then Some index else None.

Section list_methods.

(** The element type.  An element is an object: the equality of [T] is
    identity ([is]), and [==], [!=] are the elements' own ([PyCompare]). *)
Context {T : Type} `{EqDecision T} `{PyCompare T}.

Implicit Types (l : list T) (x : T).

(** How the list methods compare an element with the value looked for
    ([PyObject_RichCompareBool] with [Py_EQ]): the same object, or
    [item == value]. *)
Definition matches (item value : T) : bool :=
  bool_decide (item = value) || py_eq item value.

(** [len(l)] as a Python int. *)
Definition len l : Z := Z.of_nat (length l).

(** [list.insert(index, x)].  Once the index is a [Py_ssize_t] the
    insertion ([ins1]) cannot fail: a negative index is counted from the
    end and then clamped to 0, an index past the end is clamped to
    [len(l)].  [None] stands for the [OverflowError] of an index that is
    no [Py_ssize_t]. *)
Definition insert_position (n index : Z) : Z :=
  let where_ := if index <? 0
                then (if index + n <? 0 then 0 else index + n)
                else index in
  if n <? where_ then n else where_.

Definition ins1 (where_ : Z) x l : list T :=
  let w := Z.to_nat (insert_position (len l) where_) in
  take w l ++ x :: drop w l.

Definition py_insert (index : Z) x l : option (list T) :=
  match as_ssize_t (len l) index with
  | Some i => Some (ins1 i x l)
  | None => None
  end.

(** [list.remove(x)]: drops the first element that is [x] or equals it;
    [None] stands for [ValueError]. *)
Fixpoint py_remove x l : option (list T) :=
  match l with
  | [] => None
  | y :: l' => if matches y x then Some l' else cons y <$> py_remove x l'
  end.

(** [list.pop(index)].  Once the index is a [Py_ssize_t]
    ([list_pop_impl]), a negative index is counted from the end (once),
    and an index that is then outside [[0, n)] is an [IndexError]. *)
Definition pop_position (n index : Z) : Z :=
  if index <? 0 then index + n else index.

Definition list_pop_impl (index : Z) l : option (T * list T) :=
  let i := pop_position (len l) index in
  if (i <? 0) || (len l <=? i) then None
  else match l !! Z.to_nat i with
       | Some x => Some (x, delete (Z.to_nat i) l)
       | None => None
       end.

Inductive pop_result :=
  | Popped (x : T) (l' : list T)
  | PopIndexError
  | PopOverflowError.

Definition py_pop (index : Z) l : pop_result :=
  match as_ssize_t (len l) index with
  | None => PopOverflowError
  | Some i =>
    match list_pop_impl i l with
    | Some (x, l') => Popped x l'
    | None => PopIndexError
    end
  end.

(** [list.index(x, start, stop)]: both bounds are normalised like slice
    bounds; [stop = None] is the default [sys.maxsize]; the result [None]
    stands for [ValueError]. *)
Definition index_bound (n b : Z) : Z :=
  if b <? 0 then (if b + n <? 0 then 0 else b + n) else b.

Fixpoint index_from x l (i : Z) : option Z :=
  match l with
  | [] => None
  | y :: l' => if matches y x then Some i else index_from x l' (i + 1)
  end.

Definition py_index x (start : Z) (stop : option Z) l : option Z :=
  let lo := index_bound (len l) start in
  let hi := match stop with
            | Some e => index_bound (len l) e
            | None => len l
            end in
  index_from x (drop (Z.to_nat lo) (take (Z.to_nat hi) l)) lo.

(** [list.count(x)] and [x in l]. *)
Definition py_count x l : Z := len (filter (λ y, matches y x = true) l).

Definition py_contains x l : bool := existsb (λ y, matches y x) l.

(** Position [j] of [l] holds an element that is [x] or equals it. *)
Definition holds_match l (j : nat) x : Prop :=
  ∃ y, l !! j = Some y ∧ matches y x = true.

(** [l[start:stop:step]] with integer bounds: the bounds are adjusted as
    [PySlice_AdjustIndices] does; [None] stands for the [ValueError] of a
    zero step. *)
Definition slice_bound (n step b : Z) : Z :=
  if b <? 0 then
    (if b + n <? 0 then (if step <? 0 then -1 else 0) else b + n)
  else if n <=? b then (if step <? 0 then n - 1 else n)
  else b.

Definition slice_length (start stop step : Z) : Z :=
  if step <? 0 then
    (if stop <? start then (start - stop - 1) / (- step) + 1 else 0)
  else
    (if start <? stop then (stop - start - 1) / step + 1 else 0).

Definition py_slice (start stop step : Z) l : option (list T) :=
  if step =? 0 then None
  else
    let lo := slice_bound (len l) step start in
    let hi := slice_bound (len l) step stop in
    let k := Z.to_nat (slice_length lo hi step) in
    Some (omap (λ i : nat, l !! Z.to_nat (lo + Z.of_nat i * step)) (seq 0 k)).

(** [list.sort(key=..., reverse=...)].  The keyword arguments are kept as
    the strict comparison the sort evaluates on two elements (the [<] of
    their keys) and the [reverse] flag.  The sort is stable; with
    [reverse] the list is reversed, sorted and reversed again, as
    CPython does to keep stability. *)
Record sort_kwargs := SortKwargs {
  key_lt : T → T → bool;
  reverse_flag : bool
}.

Fixpoint sorted_insert (lt : T → T → bool) x l : list T :=
  match l with
  | [] => [x]
  | y :: l' => if lt y x then y :: sorted_insert lt x l' else x :: y :: l'
  end.

Definition stable_sort (lt : T → T → bool) l : list T :=
  foldr (sorted_insert lt) [] l.

Definition py_sort (kw : sort_kwargs) l : list T :=
  if reverse_flag kw
  then reverse (stable_sort (key_lt kw) (reverse l))
  else stable_sort (key_lt kw) l.

(** [a] may stand before [b] in a list sorted by [lt]: [b] is not less
    than [a]. *)
Definition may_precede (lt : T → T → bool) : relation T := λ a b,
  lt b a = false.

End list_methods.
Global Arguments sort_kwargs : clear implicits.
Global Arguments pop_result : clear implicits.

(** Integers: [==] and [!=] on their values. *)
#[global] Instance Z_compare : PyCompare Z := {|
  py_eq := Z.eqb;
  py_ne := λ a b, negb (Z.eqb a b)
|}.

(** Floating-point numbers as far as their comparison goes: [NaN], a
    not-a-number object, which equals nothing, itself included (where it
    occurs more than once it is the same object), and the other values. *)
Inductive pyfloat := NaN | Float (z : Z).

#[global] Instance pyfloat_eq_dec : EqDecision pyfloat.
Proof. solve_decision. Defined.

#[global] Instance pyfloat_compare : PyCompare pyfloat := {|
  py_eq := λ a b, match a, b with
                  | Float x, Float y => x =? y
                  | _, _ => false
                  end;
  py_ne := λ a b, match a, b with
                  | Float x, Float y => negb (x =? y)
                  | _, _ => true
                  end
|}.

End PyBuiltins.

Import PyBuiltins.

(** ** The container *)

Module AsyncioList.

(** List objects live in a store and are referred to by address, so that
    copying a list and sharing it can be told apart. *)
Definition loc := positive.

(** The exceptions that occur: the interpreter's and, last, the two of
    [asyncioList/exceptions.py]. *)
Inductive exn :=
  | TypeError | ValueError | IndexError | OverflowError | RuntimeError
  | TimeoutError | StopAsyncIteration
  | AsyncioListError | IndexOutOfBoundsError.

#[global] Instance exn_eq_dec : EqDecision exn.
Proof. solve_decision. Defined.

(** [class IndexOutOfBoundsError(AsyncioListError)]. *)
Definition isinstance (e cls : exn) : bool :=
  match e, cls with
  | IndexOutOfBoundsError, AsyncioListError => true
  | _, _ => bool_decide (e = cls)
  end.

(** Calls on the lock and on the event, recorded in the order they are
    made (ghost state: the program does not read it). *)
Inductive prim := LockAcquire | LockRelease | EventSet | EventClear.

#[global] Instance prim_eq_dec : EqDecision prim.
Proof. solve_decision. Defined.

(** What a method hands back when it is not an element, a number or a
    list: [None] or the container itself ([return self]). *)
Inductive pyret := PyNone | PySelf.

Section container.
Context {T : Type} `{EqDecision T} `{PyCompare T}.

(** The store of list objects and the attributes of one [AsyncioList]:
    [_items] is a reference into the store, [_lock] is the lock's
    [locked()] flag and [_change_event] the event's [is_set()] flag. *)
Record state := State {
  heap : gmap loc (list T);
  _items : loc;
  _lock : bool;
  _change_event : bool;
  calls : list prim
}.

(** The list [self._items] currently refers to. *)
Definition items_of (s : state) : list T := default [] (heap s !! _items s).

(** A coroutine run to completion from a state returns, raises, or stays
    suspended because the lock is held (or, for a wait, for ever). *)
Inductive outcome (A : Type) :=
  | Returned (a : A) (s : state)
  | Raised (e : exn) (s : state)
  | Blocked.
Global Arguments Returned {A} a s.
Global Arguments Raised {A} e s.
Global Arguments Blocked {A}.

(** Computations: a coroutine of the class, from the state it starts
    in. *)
Definition M (A : Type) : Type := state → outcome A.

Definition ret {A} (a : A) : M A := λ s, Returned a s.

Definition raise {A} (e : exn) : M A := λ s, Raised e s.

Definition bind {A B} (m : M A) (k : A → M B) : M B := λ s,
  match m s with
  | Returned a s' => k a s'
  | Raised e s' => Raised e s'
  | Blocked => Blocked
  end.

#[global] Instance M_ret : MRet M := @ret.
#[global] Instance M_bind : MBind M := λ A B k m, bind m k.
#[global] Instance M_fmap : FMap M := λ A B f m, bind m (λ a, ret (f a)).

(** [try: m except cls: handler]. *)
Definition try_except {A} (m : M A) (cls : exn) (handler : M A) : M A := λ s,
  match m s with
  | Raised e s' => if isinstance e cls then handler s' else Raised e s'
  | o => o
  end.

(** [try: m finally: fin]. *)
Definition try_finally {A} (m : M A) (fin : M unit) : M A := λ s,
  match m s with
  | Returned a s' => (fin ;; mret a) s'
  | Raised e s' => (fin ;; raise e) s'
  | Blocked => Blocked
  end.


(** *** The lock, the event and the list object *)

(** [await self._lock.acquire()]: suspends while the lock is held. *)
Definition lock_acquire : M unit := λ s,
  if _lock s then Blocked
  else Returned () (State (heap s) (_items s) true (_change_event s)
                          (calls s ++ [LockAcquire])).

(** [self._lock.release()]: releasing a lock that is not held is a
    [RuntimeError]. *)
Definition lock_release : M unit := λ s,
  if _lock s
  then Returned () (State (heap s) (_items s) false (_change_event s)
                          (calls s ++ [LockRelease]))
  else Raised RuntimeError s.

(** [async with self._lock: body]. *)
Definition async_with_lock {A} (body : M A) : M A :=
  lock_acquire ;; try_finally body lock_release.

Definition event_is_set : M bool := λ s, Returned (_change_event s) s.

Definition event_set : M unit := λ s,
  Returned () (State (heap s) (_items s) (_lock s) true
                     (calls s ++ [EventSet])).

Definition event_clear : M unit := λ s,
  Returned () (State (heap s) (_items s) (_lock s) false
                     (calls s ++ [EventClear])).

(** Reading the list object behind [self._items], and mutating it in
    place. *)
Definition get_items : M (list T) := λ s, Returned (items_of s) s.

Definition put_items (l : list T) : M unit := λ s,
  Returned () (State (<[_items s := l]> (heap s)) (_items s) (_lock s)
                     (_change_event s) (calls s)).

(** A new list object, at an address not in use. *)
Definition new_list (l : list T) : M loc := λ s,
  let p := fresh (dom (heap s) ∪ {[_items s]}) in
  Returned p (State (<[p := l]> (heap s)) (_items s) (_lock s)
                    (_change_event s) (calls s)).

(** [self._items = p]. *)
Definition rebind_items (p : loc) : M unit := λ s,
  Returned () (State (heap s) p (_lock s) (_change_event s) (calls s)).

Definition list_remove (item : T) : M unit :=
  l ← get_items;
  match py_remove item l with
  | Some l' => put_items l'
  | None => raise ValueError
  end.

Definition list_insert (index : Z) (item : T) : M unit :=
  l ← get_items;
  match py_insert index item l with
  | Some l' => put_items l'
  | None => raise OverflowError
  end.

Definition list_pop (index : Z) : M T :=
  l ← get_items;
  match py_pop index l with
  | Popped x l' => put_items l' ;; mret x
  | PopIndexError => raise IndexError
  | PopOverflowError => raise OverflowError
  end.

Definition list_index (item : T) (start : Z) (stop : option Z) : M Z :=
  l ← get_items;
  match py_index item start stop l with
  | Some i => mret i
  | None => raise ValueError
  end.

(** *** The methods of [AsyncioList] *)

(** Arguments a caller may hand to the constructor. *)
Inductive pyobj :=
  | ObjNone
  | ObjList (p : loc)
  | ObjTuple (xs : list T)
  | ObjInt (z : Z)
  | ObjBool (b : bool)
  | ObjStr (str : string).

Definition is_none (o : pyobj) : bool :=
  match o with ObjNone => true | _ => false end.

Definition is_list (o : pyobj) : bool :=
  match o with ObjList _ => true | _ => false end.

Inductive init_outcome :=
  | Constructed (s : state)
  | InitRaised (e : exn).

(** [__init__(self, initial_list=None)], run in a store [h]:
    [list(initial_list)] is a new list object with the same elements. *)
Definition __init__ (h : gmap loc (list T)) (initial_list : pyobj)
  : init_outcome :=
  if negb (is_none initial_list) && negb (is_list initial_list)
  then InitRaised TypeError
  else
    let contents := match initial_list with
                    | ObjList q => default [] (h !! q)
                    | _ => []
                    end in
    let p := fresh (dom h) in
    Constructed (State (<[p := contents]> h) p false false []).

Definition append (item : T) : M pyret :=
  async_with_lock (
    l ← get_items;
    put_items (l ++ [item]) ;;
    b ← event_is_set;
    if negb b then event_set else mret ()) ;;
  mret PySelf.

Definition extend (items : list T) : M pyret :=
  match items with
  | [] => mret PyNone
  | _ :: _ =>
    async_with_lock (
      l ← get_items;
      put_items (l ++ items) ;;
      event_set) ;;
    mret PyNone
  end.

Definition insert (index : Z) (item : T) : M pyret :=
  async_with_lock (
    try_except (list_insert index item)
      IndexError (raise IndexOutOfBoundsError) ;;
    event_set) ;;
  mret PyNone.

Definition remove (item : T) : M pyret :=
  async_with_lock (
    try_except (list_remove item)
      ValueError (raise AsyncioListError) ;;
    event_set) ;;
  mret PyNone.

Definition pop (index : Z) : M T :=
  async_with_lock (
    try_except
      (result ← list_pop index;
       b ← event_is_set;
       (if negb b then event_set else mret ()) ;;
       mret result)
      IndexError (raise IndexOutOfBoundsError)).

(** [pop()] without an argument: [index] defaults to [-1]. *)
Definition pop_default : M T := pop (-1).

Definition clear : M pyret :=
  async_with_lock (put_items [] ;; event_set) ;;
  mret PyNone.

Definition index (item : T) (start : Z) (end_ : option Z) : M Z :=
  async_with_lock (
    try_except
      (match end_ with
       | None => list_index item start None
       | Some e => list_index item start (Some e)
       end)
      ValueError (raise AsyncioListError)).

Definition count (item : T) : M Z :=
  async_with_lock (l ← get_items; mret (py_count item l)).

Definition contains (item : T) : M bool :=
  async_with_lock (l ← get_items; mret (py_contains item l)).

Definition slice (start stop step : Z) : M (list T) :=
  async_with_lock (
    l ← get_items;
    match py_slice start stop step l with
    | Some r => mret r
    | None => raise ValueError
    end).

Definition reverse_ : M pyret :=
  async_with_lock (
    l ← get_items;
    put_items (reverse l) ;;
    event_set) ;;
  mret PySelf.

Definition sort (kwargs : sort_kwargs T) : M pyret :=
  async_with_lock (
    l ← get_items;
    put_items (py_sort kwargs l) ;;
    event_set) ;;
  mret PySelf.

Definition get (index : Z) : M T :=
  async_with_lock (
    l ← get_items;
    if (index <? 0) || (len l <=? index) then raise IndexOutOfBoundsError
    else match l !! Z.to_nat index with
         | Some x => mret x
         | None => raise IndexError
         end).

(** The synchronous [__len__]: no lock. *)
Definition __len__ : M Z := l ← get_items; mret (len l).

Definition length_ : M Z :=
  async_with_lock (l ← get_items; mret (len l)).

Definition is_empty : M bool :=
  n ← length_; mret (n =? 0).

(** [self._items = [i for i in self._items if i != item]]: a new list
    object, to which the attribute is rebound. *)
Definition delete_all (item : T) : M pyret :=
  async_with_lock (
    l ← get_items;
    p ← new_list (filter (λ i, py_ne i item = true) l);
    rebind_items p ;;
    event_set) ;;
  mret PyNone.

Definition __aenter__ : M pyret := lock_acquire ;; mret PySelf.

Definition __aexit__ : M pyret := lock_release ;; event_set ;; mret PyNone.


(** [async with lst: body]: [__aenter__], the block, and [__aexit__] on
    every way out of the block. *)
Definition async_with_self {A} (body : M A) : M A :=
  __aenter__ ;; try_finally body (__aexit__ ;; mret ()).

(** A block that works on [lst._items] directly, as the callers'
    [lst._items.extend(batch)] does. *)
Definition raw_update (f : list T → list T) : M unit :=
  l ← get_items; put_items (f l).

(** *** Calls made by other tasks *)

Inductive value :=
  | VNone | VSelf
  | VElem (x : T) | VInt (z : Z) | VBool (b : bool) | VList (l : list T).

Definition of_pyret (r : pyret) : value :=
  match r with PyNone => VNone | PySelf => VSelf end.

Inductive call :=
  | CallAppend (item : T)
  | CallExtend (items : list T)
  | CallInsert (index : Z) (item : T)
  | CallRemove (item : T)
  | CallPop (index : Z)
  | CallClear
  | CallReverse
  | CallSort (kwargs : sort_kwargs T)
  | CallDeleteAll (item : T)
  | CallScoped (f : list T → list T)
  | CallGet (index : Z)
  | CallLength
  | CallLen
  | CallCount (item : T)
  | CallContains (item : T)
  | CallIndex (item : T) (start : Z) (end_ : option Z)
  | CallSlice (start stop step : Z)
  | CallIsEmpty.

Definition exec (c : call) : M value :=
  match c with
  | CallAppend item => of_pyret <$> append item
  | CallExtend items => of_pyret <$> extend items
  | CallInsert i item => of_pyret <$> insert i item
  | CallRemove item => of_pyret <$> remove item
  | CallPop i => VElem <$> pop i
  | CallClear => of_pyret <$> clear
  | CallReverse => of_pyret <$> reverse_
  | CallSort kw => of_pyret <$> sort kw
  | CallDeleteAll item => of_pyret <$> delete_all item
  | CallScoped f => async_with_self (raw_update f) ;; mret VNone
  | CallGet i => VElem <$> get i
  | CallLength => VInt <$> length_
  | CallLen => VInt <$> __len__
  | CallCount item => VInt <$> count item
  | CallContains item => VBool <$> contains item
  | CallIndex item start end_ => VInt <$> index item start end_
  | CallSlice start stop step => VList <$> slice start stop step
  | CallIsEmpty => VBool <$> is_empty
  end.

(** The operations the data model lists as mutating ([extend] only with a
    non-empty argument), and the read-only ones. *)
Definition mutating (c : call) : bool :=
  match c with
  | CallAppend _ | CallInsert _ _ | CallRemove _ | CallPop _ | CallClear
  | CallReverse | CallSort _ | CallDeleteAll _ => true
  | CallExtend items => bool_decide (items ≠ [])
  | _ => false
  end.

Definition read_only (c : call) : bool :=
  match c with
  | CallGet _ | CallLength | CallLen | CallCount _ | CallContains _
  | CallIndex _ _ _ | CallSlice _ _ _ | CallIsEmpty => true
  | _ => false
  end.

(** The state a coroutine leaves behind; a suspended one has done nothing
    yet. *)
Definition state_after {A} (o : outcome A) (s : state) : state :=
  match o with
  | Returned _ s' | Raised _ s' => s'
  | Blocked => s
  end.

Definition run (c : call) (s : state) : state := state_after (exec c s) s.

Definition run_all (cs : list call) (s : state) : state :=
  foldl (λ s c, run c s) s cs.

(** *** Waiting for a change *)

(** What another task does in one turn of the event loop: it completes a
    call on the container, or it completes a [wait_for_change] of its
    own, whose [finally] clears the event. *)
Inductive activity :=
  | Completes (c : call)
  | ClearsEvent.

(** The state with the event cleared by one call of [Event.clear]. *)
Definition cleared (s : state) : state := state_after (event_clear s) s.

Definition act (a : activity) (s : state) : state :=
  match a with
  | Completes c => run c s
  | ClearsEvent => cleared s
  end.

Definition acts (l : list activity) (s : state) : state :=
  foldl (λ s a, act a s) s l.


(** [self._change_event.wait()] from the moment it tests the event,
    under a logical clock.  [env] lists what the other tasks do from then
    on, one activity per turn, after which nothing else happens;
    [timeout] is the number of turns left.  The wait is over when the
    event is found set, at the test or after an activity that set it,
    or when no turn is left; the coroutine that waits is resumed [lag]
    activities later.  Without a timeout the wait stays suspended for
    ever if the event is never set. *)
Fixpoint event_wait (timeout : option nat) (lag : nat) (env : list activity)
  (s : state) : outcome bool :=
  if _change_event s then Returned true (acts (take lag env) s)
  else
    match timeout with
    | Some O => Raised TimeoutError (acts (take lag env) s)
    | _ =>
      match env with
      | [] => match timeout with
              | Some _ => Raised TimeoutError s
              | None => Blocked
              end
      | a :: env' => event_wait (pred <$> timeout) lag env' (act a s)
      end
    end.

(** [await asyncio.wait_for(self._change_event.wait(), timeout)].
    - Without a timeout the wait is awaited as it is: an event that is
      set is answered at once, with no other task in between.
    - A timeout that is not positive gives [TimeoutError], also when the
      event is set: the wait is cancelled before it has tested the
      event.
    - With a positive timeout, [start] activities of the other tasks
      come before the wait tests the event: none from Python 3.12 on,
      where the wait is awaited as it is; those ahead in the loop's
      queue on Python 3.7 to 3.11, where the wait runs in a task of its
      own. *)
Definition wait_for (timeout : option nat) (start lag : nat)
  (env : list activity) (s : state) : outcome bool :=
  match timeout with
  | None =>
    if _change_event s then Returned true s
    else event_wait None lag env s
  | Some O => Raised TimeoutError (acts (take start env) s)
  | Some (S t) =>
    event_wait (Some (S t)) lag (drop start env) (acts (take start env) s)
  end.

Definition wait_for_change (timeout : option nat) (start lag : nat)
  (env : list activity) : M bool :=
  try_finally
    (try_except (wait_for timeout start lag env ;; mret true)
       TimeoutError (mret false))
    event_clear.

(** *** Asynchronous iteration *)

(** The asynchronous generator made by calling [__aiter__]: not started,
    suspended at the [yield] inside [for item in items] (the local list
    [items] and the position of the list iterator), or finished. *)
Inductive agen :=
  | AGenCreated
  | AGenSuspended (items : loc) (pos : nat)
  | AGenClosed.

(** Calling the generator function runs none of its body. *)
Definition __aiter__ : agen := AGenCreated.

(** One round of [for item in items: yield item]. *)
Definition for_step (items : loc) (pos : nat) (s : state)
  : agen * outcome T :=
  match default [] (heap s !! items) !! pos with
  | Some item => (AGenSuspended items (S pos), Returned item s)
  | None => (AGenClosed, Raised StopAsyncIteration s)
  end.

(** [__anext__]: resumes the generator up to its next [yield]. *)
Definition __anext__ (g : agen) (s : state) : agen * outcome T :=
  match g with
  | AGenCreated =>
    match async_with_lock (l ← get_items; new_list l) s with
    | Returned items s' => for_step items 0 s'
    | Raised e s' => (AGenClosed, Raised e s')
    | Blocked => (AGenCreated, Blocked)
    end
  | AGenSuspended items pos => for_step items pos s
  | AGenClosed => (AGenClosed, Raised StopAsyncIteration s)
  end.

(** [async for item in lst: ...] with the other tasks' calls interleaved:
    [sched] gives, for each round of the loop, the calls other tasks
    complete between this [__anext__] and the next.  The result is the
    list of elements the loop received, the generator and the state. *)
Fixpoint async_for (sched : list (list call)) (g : agen) (s : state)
  : list T * agen * state :=
  match sched with
  | [] => ([], g, s)
  | others :: sched' =>
    match __anext__ g s with
    | (g', Returned item s') =>
      let '(rest, g'', s'') := async_for sched' g' (run_all others s') in
      (item :: rest, g'', s'')
    | (g', Raised _ s') => ([], g', s')
    | (g', Blocked) => ([], g', s)
    end
  end.

(** [n] calls of [pop()] in a row, with the elements they returned; stops
    at the first call that does not return. *)
Fixpoint drain (n : nat) (s : state) : list T * state :=
  match n with
  | O => ([], s)
  | S n' =>
    match pop_default s with
    | Returned x s' => let '(xs, s'') := drain n' s' in (x :: xs, s'')
    | _ => ([], s)
    end
  end.

(** *** Relations between the state before and after a computation *)

(** [m] takes every state to one related to it by [R] (a suspended
    computation has not changed the state). *)
Definition respects (R : relation state) {A} (m : M A) : Prop :=
  ∀ s, R s (state_after (m s) s).

(** The calls made on the lock and the event all satisfy [P]. *)
Definition only_calls (P : prim → Prop) : relation state := λ s s',
  ∃ added, calls s' = calls s ++ added ∧ Forall P added.

(** Neither the store, nor the attribute [_items], nor the event flag
    has changed. *)
Definition untouched : relation state := λ s s',
  heap s' = heap s ∧ _items s' = _items s
  ∧ _change_event s' = _change_event s.

(** The list object at [p], if it is not the container's, is as it was
    and is still not the container's. *)
Definition keeps (p : loc) : relation state := λ s s',
  p ∈ dom (heap s) → p ≠ _items s →
  heap s' !! p = heap s !! p ∧ p ∈ dom (heap s') ∧ p ≠ _items s'.


(** The attribute [_items] refers to the same list object as before. *)
Definition same_list_object : relation state := λ s s',
  _items s' = _items s.

(** The state after [async with self._lock] around a body that changes
    nothing. *)
Definition after_lock (s : state) : state :=
  State (heap s) (_items s) false (_change_event s)
        ((calls s ++ [LockAcquire]) ++ [LockRelease]).

(** *** The callers in [example/] *)

(** The calls that go through [async with self._lock]: all but the
    synchronous [__len__] and [extend] with nothing to add. *)
Definition takes_lock (c : call) : bool :=
  match c with
  | CallLen | CallExtend [] => false
  | _ => true
  end.

(** The producer's batch step in [producer_consumer_example.py] (and the
    block of [example.py]):
    [async with queue: queue._items.extend(batch)]. *)
Definition add_batch (batch : list T) : M unit :=
  async_with_self (raw_update (λ l, l ++ batch)).

(** The consumer's inner loop in [producer_consumer_example.py],
    [while not await queue.is_empty(): item = await queue.pop(0); ...;
    print(... await queue.length())], with the items it took out (the
    sleep and the output itself are left out).  [fuel] bounds the rounds
    of the loop; [None] says the loop was still running when the bound
    was reached. *)
Fixpoint process_available (fuel : nat) : M (option (list T)) :=
  match fuel with
  | O => mret None
  | S fuel' =>
    b ← is_empty;
    if negb b then
      item ← pop 0;
      length_ ;;
      rest ← process_available fuel';
      mret (cons item <$> rest)
    else mret (Some [])
  end.

End container.

Global Arguments state : clear implicits.
Global Arguments outcome : clear implicits.
Global Arguments call : clear implicits.
Global Arguments activity : clear implicits.
Global Arguments pyobj : clear implicits.
Global Arguments value : clear implicits.
Global Arguments init_outcome : clear implicits.

(** A container of integers holding [l], lock free and event clear, in a
    store with one more list object. *)
Definition sample (l : list Z) : state Z :=
  State {[ 1%positive := l; 2%positive := [7; 8] ]} 1%positive false false [].

(** The same inside a scoped block: the lock is held. *)
Definition sample_locked (l : list Z) : state Z :=
  State {[ 1%positive := l; 2%positive := [7; 8] ]} 1%positive true false
        [LockAcquire].


(** A container of floating-point numbers, lock free and event clear. *)
Definition sample_floats (l : list pyfloat) : state pyfloat :=
  State {[ 1%positive := l ]} 1%positive false false [].

End AsyncioList.

(** * Properties *)

(** ** The list methods *)

Module PyBuiltinsFacts.
Section list_facts.
Context {T : Type} `{EqDecision T} `{PyCompare T}.
Implicit Types (l : list T) (x : T).

Example py_insert_front : py_insert 0 9 [1; 2; 3] = Some [9; 1; 2; 3].
Proof. reflexivity. Qed.

Example py_insert_clamped :
  py_insert 7 9 [1; 2; 3] = Some [1; 2; 3; 9]
  ∧ py_insert (-1) 9 [1; 2; 3] = Some [1; 2; 9; 3]
  ∧ py_insert (-7) 9 [1; 2; 3] = Some [9; 1; 2; 3].
Proof. done. Qed.

Example py_insert_ssize_t :
  py_insert (2 ^ 63 - 1) 9 [1; 2; 3] = Some [1; 2; 3; 9]
  ∧ py_insert (2 ^ 63) 9 [1; 2; 3] = None
  ∧ py_insert (- 2 ^ 63) 9 [1; 2; 3] = Some [9; 1; 2; 3]
  ∧ py_insert (- 2 ^ 63 - 1) 9 [1; 2; 3] = None.
Proof. done. Qed.

Example py_remove_first_only : py_remove 1 [1; 2; 1] = Some [2; 1].
Proof. reflexivity. Qed.

Example py_remove_same_object :
  py_remove NaN [Float 1; NaN; NaN] = Some [Float 1; NaN]
  ∧ py_remove (Float 2) [Float 1; NaN] = None.
Proof. done. Qed.

Example py_pop_default : py_pop (-1) [1; 2; 3] = Popped 3 [1; 2].
Proof. reflexivity. Qed.

Example py_pop_errors :
  py_pop 3 [1; 2; 3] = PopIndexError
  ∧ py_pop (-4) [1; 2; 3] = PopIndexError
  ∧ py_pop (2 ^ 63 - 1) [1; 2; 3] = PopIndexError
  ∧ py_pop (2 ^ 63) [1; 2; 3] = PopOverflowError
  ∧ py_pop (- 2 ^ 63 - 1) [1; 2; 3] = PopOverflowError.
Proof. done. Qed.

Example py_index_window :
  py_index 5 1 (Some 3) [5; 1; 5; 5] = Some 2
  ∧ py_index 9 0 None [5; 1; 5; 5] = None.
Proof. done. Qed.

Example py_count_contains_nan :
  py_count NaN [NaN; Float 1] = 1
  ∧ py_contains NaN [NaN; Float 1] = true
  ∧ py_index NaN 0 None [Float 1; NaN] = Some 1.
Proof. done. Qed.

Example py_slice_steps :
  py_slice 0 5 2 [10; 11; 12; 13; 14] = Some [10; 12; 14]
  ∧ py_slice 3 0 (-1) [10; 11; 12; 13; 14] = Some [13; 12; 11]
  ∧ py_slice (-2) 9 1 [10; 11; 12; 13; 14] = Some [13; 14]
  ∧ py_slice 0 5 0 [10; 11; 12; 13; 14] = None.
Proof. done. Qed.

Example py_sort_stable :
  py_sort (SortKwargs (λ a b : Z * Z, a.1 <? b.1) false)
          [(2, 0); (1, 0); (2, 1); (1, 1)]
  = [(1, 0); (1, 1); (2, 0); (2, 1)]
  ∧ py_sort (SortKwargs (λ a b : Z * Z, a.1 <? b.1) true)
            [(2, 0); (1, 0); (2, 1); (1, 1)]
    = [(2, 0); (2, 1); (1, 0); (1, 1)].
Proof. done. Qed.

(** *** The index as a [Py_ssize_t] *)

Lemma as_ssize_t_Some n index i : as_ssize_t n index = Some i → i = index.
Proof. unfold as_ssize_t. case_match; congruence. Qed.

Lemma as_ssize_t_fits n index :
  fits_ssize_t index = true → as_ssize_t n index = Some index.
Proof. unfold as_ssize_t. by intros ->. Qed.

Lemma as_ssize_t_within n index :
  - n ≤ index ≤ n → as_ssize_t n index = Some index.
Proof.
  intros Hr. unfold as_ssize_t.
  destruct (Z.leb_spec (- n) index); [|lia].
  destruct (Z.leb_spec index n); [|lia].
  by rewrite orb_true_r.
Qed.

Lemma as_ssize_t_None n index :
  as_ssize_t n index = None →
  fits_ssize_t index = false ∧ (index < - n ∨ n < index).
Proof.
  unfold as_ssize_t.
  destruct (fits_ssize_t index); [done|]. simpl.
  destruct (Z.leb_spec (- n) index); simpl; [|intros _; split; [done|lia]].
  destruct (Z.leb_spec index n); [done|]. intros _. split; [done|lia].
Qed.

Lemma fits_ssize_t_range index :
  fits_ssize_t index = true ↔ - 2 ^ 63 ≤ index ≤ 2 ^ 63 - 1.
Proof.
  unfold fits_ssize_t, PY_SSIZE_T_MAX.
  rewrite andb_true_iff, !Z.leb_le. lia.
Qed.

(** *** [list.insert] *)

Lemma insert_position_in_range n index :
  0 ≤ index ≤ n → insert_position n index = index.
Proof.
  intros Hr. unfold insert_position.
  destruct (Z.ltb_spec index 0); [lia|].
  destruct (Z.ltb_spec n index); lia.
Qed.

Lemma insert_position_bounds n index :
  0 ≤ n → 0 ≤ insert_position n index ≤ n.
Proof.
  intros Hn. unfold insert_position.
  repeat match goal with |- context [?a <? ?b] => destruct (Z.ltb_spec a b) end;
    lia.
Qed.

Lemma ins1_length index x l :
  length (ins1 index x l) = S (length l).
Proof.
  unfold ins1.
  rewrite length_app, length_take; simpl; rewrite length_drop. lia.
Qed.

Lemma ins1_in_range index x l :
  0 ≤ index ≤ len l →
  ins1 index x l
  = take (Z.to_nat index) l ++ x :: drop (Z.to_nat index) l.
Proof.
  intros Hr. unfold ins1. by rewrite insert_position_in_range.
Qed.

Lemma ins1_lookup index x l :
  0 ≤ index ≤ len l →
  ins1 index x l !! Z.to_nat index = Some x.
Proof.
  intros Hr. rewrite ins1_in_range by done.
  unfold len in Hr.
  rewrite lookup_app_r; rewrite length_take; [|lia].
  replace (Z.to_nat index - Z.to_nat index `min` length l)%nat
    with 0%nat by lia.
  done.
Qed.

Lemma ins1_past_end index x l :
  len l ≤ index → ins1 index x l = l ++ [x].
Proof.
  intros Hr. unfold ins1, insert_position, len in *.
  destruct (Z.ltb_spec index 0); [lia|].
  destruct (Z.ltb_spec (Z.of_nat (length l)) index).
  - rewrite Nat2Z.id, firstn_all, drop_all. done.
  - assert (index = Z.of_nat (length l)) as -> by lia.
    rewrite Nat2Z.id, firstn_all, drop_all. done.
Qed.

Lemma py_insert_Some index x l l' :
  py_insert index x l = Some l' → l' = ins1 index x l.
Proof.
  unfold py_insert. destruct (as_ssize_t (len l) index) as [i|] eqn:Hi; [|done].
  apply as_ssize_t_Some in Hi as ->. congruence.
Qed.

Lemma py_insert_fits index x l :
  as_ssize_t (len l) index = Some index →
  py_insert index x l = Some (ins1 index x l).
Proof. unfold py_insert. by intros ->. Qed.

Lemma py_insert_overflow index x l :
  as_ssize_t (len l) index = None → py_insert index x l = None.
Proof. unfold py_insert. by intros ->. Qed.

Lemma py_insert_length index x l l' :
  py_insert index x l = Some l' → length l' = S (length l).
Proof. intros ->%py_insert_Some. apply ins1_length. Qed.

(** An index in [[0, len l]] is the position the new element gets; the
    elements before it stay, the ones from it on move right by one. *)
Lemma py_insert_in_range index x l :
  0 ≤ index ≤ len l →
  py_insert index x l
  = Some (take (Z.to_nat index) l ++ x :: drop (Z.to_nat index) l).
Proof.
  intros Hr. rewrite py_insert_fits by (apply as_ssize_t_within; lia).
  by rewrite ins1_in_range.
Qed.

(** An index past the end appends. *)
Lemma py_insert_past_end index x l :
  len l ≤ index → fits_ssize_t index = true →
  py_insert index x l = Some (l ++ [x]).
Proof.
  intros Hr Hfit. rewrite py_insert_fits by by apply as_ssize_t_fits.
  by rewrite ins1_past_end.
Qed.

(** *** [list.remove] *)

Lemma matches_same x : matches x x = true.
Proof. unfold matches. by rewrite bool_decide_eq_true_2. Qed.

Lemma py_remove_first x y l1 l2 :
  (∀ z, z ∈ l1 → matches z x = false) → matches y x = true →
  py_remove x (l1 ++ y :: l2) = Some (l1 ++ l2).
Proof.
  intros Hl1 Hy. induction l1 as [|z l1 IH]; simpl.
  - by rewrite Hy.
  - rewrite (Hl1 z) by left. rewrite IH; [done|].
    intros z' Hz'. apply Hl1. by right.
Qed.

Lemma py_remove_absent x l :
  (∀ z, z ∈ l → matches z x = false) → py_remove x l = None.
Proof.
  induction l as [|y l IH]; intros Hl; simpl; [done|].
  rewrite (Hl y) by left. rewrite IH; [done|].
  intros z Hz. apply Hl. by right.
Qed.

Lemma py_remove_None x l :
  py_remove x l = None ↔ ∀ z, z ∈ l → matches z x = false.
Proof.
  split; [|apply py_remove_absent].
  induction l as [|y l IH]; simpl; [intros _ z Hz; by apply elem_of_nil in Hz|].
  destruct (matches y x) eqn:Hy; [done|].
  destruct (py_remove x l); [done|]. intros _ z Hz.
  apply elem_of_cons in Hz as [->|Hz]; [done|]. by apply IH.
Qed.

Lemma py_remove_Some x l l' :
  py_remove x l = Some l' →
  ∃ l1 y l2, l = l1 ++ y :: l2 ∧ l' = l1 ++ l2
             ∧ matches y x = true ∧ ∀ z, z ∈ l1 → matches z x = false.
Proof.
  revert l'. induction l as [|y l IH]; intros l'; simpl; [done|].
  destruct (matches y x) eqn:Hy.
  - intros [= <-]. exists [], y, l. split_and!; try done.
    intros z Hz. by apply elem_of_nil in Hz.
  - destruct (py_remove x l) as [r|]; [|done]. simpl. intros [= <-].
    destruct (IH r eq_refl) as (l1 & z & l2 & -> & -> & Hz & Hl1).
    exists (y :: l1), z, l2. split_and!; try done.
    intros z' Hz'. apply elem_of_cons in Hz' as [->|Hz']; [done|by apply Hl1].
Qed.

(** *** [list.pop] *)

Lemma list_pop_impl_valid index l :
  - len l ≤ index < len l →
  ∃ x, l !! Z.to_nat (pop_position (len l) index) = Some x
       ∧ list_pop_impl index l
         = Some (x, delete (Z.to_nat (pop_position (len l) index)) l).
Proof.
  intros Hr. unfold list_pop_impl.
  set (i := pop_position (len l) index).
  assert (0 ≤ i < len l) as Hi.
  { subst i. unfold pop_position. destruct (Z.ltb_spec index 0); lia. }
  destruct (Z.ltb_spec i 0); [lia|].
  destruct (Z.leb_spec (len l) i); [lia|]. simpl.
  destruct (lookup_lt_is_Some_2 l (Z.to_nat i)) as [x Hx].
  { unfold len in Hi. lia. }
  exists x. by rewrite Hx.
Qed.

Lemma list_pop_impl_invalid index l :
  index < - len l ∨ len l ≤ index → list_pop_impl index l = None.
Proof.
  intros Hr. unfold list_pop_impl, pop_position.
  assert (0 ≤ len l) by (unfold len; lia).
  destruct (Z.ltb_spec index 0).
  - destruct (Z.ltb_spec (index + len l) 0); [done|].
    destruct (Z.leb_spec (len l) (index + len l)); [done|lia].
  - destruct (Z.ltb_spec index 0); [lia|].
    destruct (Z.leb_spec (len l) index); [done|lia].
Qed.

Lemma py_pop_valid index l :
  - len l ≤ index < len l →
  ∃ x, l !! Z.to_nat (pop_position (len l) index) = Some x
       ∧ py_pop index l
         = Popped x (delete (Z.to_nat (pop_position (len l) index)) l).
Proof.
  intros Hr. destruct (list_pop_impl_valid index l Hr) as (x & Hx & Hpop).
  exists x. split; [done|]. unfold py_pop.
  rewrite as_ssize_t_within by lia. by rewrite Hpop.
Qed.

Lemma py_pop_invalid index l :
  index < - len l ∨ len l ≤ index →
  as_ssize_t (len l) index = Some index →
  py_pop index l = PopIndexError.
Proof.
  intros Hr Hfit. unfold py_pop. rewrite Hfit.
  by rewrite list_pop_impl_invalid.
Qed.

Lemma py_pop_overflow index l :
  as_ssize_t (len l) index = None → py_pop index l = PopOverflowError.
Proof. unfold py_pop. by intros ->. Qed.

Lemma py_pop_overflow_inv index l :
  py_pop index l = PopOverflowError → as_ssize_t (len l) index = None.
Proof.
  unfold py_pop. destruct (as_ssize_t (len l) index); [|done].
  by repeat case_match.
Qed.

Lemma py_pop_invalid_inv index l :
  py_pop index l = PopIndexError →
  as_ssize_t (len l) index = Some index
  ∧ (index < - len l ∨ len l ≤ index).
Proof.
  intros Hpop.
  destruct (as_ssize_t (len l) index) as [i|] eqn:Hi.
  - pose proof (as_ssize_t_Some _ _ _ Hi) as ->. split; [done|].
    destruct (decide (- len l ≤ index < len l)) as [Hr|]; [|lia].
    destruct (py_pop_valid index l Hr) as (x & _ & Hx). congruence.
  - by rewrite py_pop_overflow in Hpop.
Qed.

(** [list.pop] gives an element exactly on the indices in [[-n, n)]. *)
Lemma py_pop_Popped index l x l' :
  py_pop index l = Popped x l' → - len l ≤ index < len l.
Proof.
  intros Hpop.
  destruct (decide (- len l ≤ index < len l)) as [|Hout]; [done|].
  destruct (as_ssize_t (len l) index) as [i|] eqn:Hi.
  - pose proof (as_ssize_t_Some _ _ _ Hi) as ->.
    rewrite py_pop_invalid in Hpop by (done || lia). done.
  - by rewrite py_pop_overflow in Hpop.
Qed.

Lemma py_pop_last l x : py_pop (-1) (l ++ [x]) = Popped x l.
Proof.
  destruct (py_pop_valid (-1) (l ++ [x])) as (y & Hy & ->).
  { unfold len. rewrite length_app. simpl. lia. }
  unfold pop_position, len in *. rewrite length_app in *. simpl in *.
  replace (Z.to_nat (-1 + Z.of_nat (length l + 1))) with (length l) in * by lia.
  rewrite lookup_app_r, Nat.sub_diag in Hy by lia.
  simpl in Hy. injection Hy as <-.
  rewrite delete_middle. by rewrite app_nil_r.
Qed.

End list_facts.
End PyBuiltinsFacts.

(** ** The container's methods *)

Module AsyncioListFacts.
Import PyBuiltinsFacts AsyncioList.

Ltac unfold_monad :=
  unfold fmap, M_fmap, mbind, M_bind, bind, mret, M_ret, ret, raise in *.

Ltac unfold_prims :=
  unfold async_with_lock, try_finally, try_except, lock_acquire, lock_release,
    event_is_set, event_set, event_clear, get_items, put_items, new_list,
    rebind_items, list_remove, list_insert, list_pop, list_index in *.

Ltac unfold_methods :=
  unfold exec, append, extend, insert, remove, pop_default, pop, clear, index,
    count, contains, slice, reverse_, sort, get, __len__, is_empty, length_,
    delete_all, async_with_self, __aenter__, __aexit__, raw_update in *.

(** Runs a method's body symbolically, given the state of the lock. *)
Ltac run_method Hlock :=
  unfold_prims; unfold_monad; rewrite ?Hlock; simpl.

Section method_facts.
Context {T : Type} `{EqDecision T} `{PyCompare T}.
Implicit Types (s : state T) (l : list T) (x item : T).

Lemma items_of_put s l lk ev cs :
  items_of (State (<[_items s := l]> (heap s)) (_items s) lk ev cs) = l.
Proof. unfold items_of; simpl. by rewrite lookup_insert_eq. Qed.

Lemma items_of_new (h : gmap loc (list T)) p l lk ev cs :
  items_of (State (<[p := l]> h) p lk ev cs) = l.
Proof. unfold items_of; simpl. by rewrite lookup_insert_eq. Qed.

(** *** insert *)

(** With an index that is a [Py_ssize_t], [insert] returns, whatever the
    index: [list.insert] clamps it. *)
Lemma insert_returns index item s :
  _lock s = false →
  as_ssize_t (len (items_of s)) index = Some index →
  ∃ s', insert index item s = Returned PyNone s'
        ∧ items_of s' = ins1 index item (items_of s)
        ∧ _change_event s' = true
        ∧ _lock s' = false.
Proof.
  intros Hlock Hfit. apply py_insert_fits with (x := item) in Hfit.
  unfold insert. run_method Hlock.
  unfold items_of in Hfit |- * at 1. simpl. rewrite Hfit. simpl.
  eexists. split; [reflexivity|]. simpl.
  split; [|done]. by rewrite items_of_put.
Qed.

(** With any other index the [OverflowError] of [list.insert] leaves the
    method as it is; the lock is released, nothing else has happened. *)
Lemma insert_overflow index item s :
  _lock s = false →
  as_ssize_t (len (items_of s)) index = None →
  insert index item s = Raised OverflowError (after_lock s).
Proof.
  intros Hlock Hfit. apply py_insert_overflow with (x := item) in Hfit.
  unfold insert. run_method Hlock.
  unfold items_of in Hfit |- * at 1. simpl. by rewrite Hfit.
Qed.

(** The first half of the row for [insert]: with [0 <= index <= n] the
    item ends up at position [index], what was before it stays, what was
    at or after it moves right, and the event is set. *)
Lemma insert_in_range index item s :
  _lock s = false →
  0 ≤ index ≤ len (items_of s) →
  ∃ s', insert index item s = Returned PyNone s'
        ∧ items_of s' = take (Z.to_nat index) (items_of s)
                        ++ item :: drop (Z.to_nat index) (items_of s)
        ∧ items_of s' !! Z.to_nat index = Some item
        ∧ _change_event s' = true.
Proof.
  intros Hlock Hr.
  destruct (insert_returns index item s Hlock)
    as (s' & Hrun & Hitems & Hev & _).
  { apply as_ssize_t_within. lia. }
  exists s'. split; [done|].
  rewrite Hitems. split; [by apply ins1_in_range|].
  split; [by apply ins1_lookup|done].
Qed.

(** The [except IndexError] clause of [insert] is never entered: for no
    index does [insert] raise [IndexOutOfBoundsError]. *)
Lemma insert_never_out_of_bounds index item s s' :
  insert index item s ≠ Raised IndexOutOfBoundsError s'.
Proof.
  destruct (_lock s) eqn:Hlock.
  - unfold insert. run_method Hlock. done.
  - destruct (as_ssize_t (len (items_of s)) index) as [i|] eqn:Hfit.
    + pose proof (as_ssize_t_Some _ _ _ Hfit) as ->.
      destruct (insert_returns index item s Hlock Hfit) as (s1 & -> & _). done.
    + by rewrite insert_overflow.
Qed.

(** *** extend *)

Lemma extend_nonempty items s :
  items ≠ [] →
  _lock s = false →
  ∃ s', extend items s = Returned PyNone s'
        ∧ items_of s' = items_of s ++ items
        ∧ _change_event s' = true
        ∧ _lock s' = false.
Proof.
  intros Hne Hlock. destruct items as [|x items]; [done|].
  unfold extend. run_method Hlock.
  eexists. split; [reflexivity|]. simpl.
  split; [|done]. by rewrite items_of_put.
Qed.

(** C9: [extend] with a non-empty argument appends its elements in order
    and sets the event (and it needs the lock: while the lock is held it
    stays suspended); [extend([])] returns at once with the state as it
    was, so the length, the event and the lock are untouched and no call
    on the lock was made, and it does so even while the lock is held. *)
Theorem extend_spec items s :
  (items ≠ [] → _lock s = false →
     ∃ s', extend items s = Returned PyNone s'
           ∧ items_of s' = items_of s ++ items
           ∧ _change_event s' = true)
  ∧ (items ≠ [] → _lock s = true → extend items s = Blocked)
  ∧ (items = [] →
       extend items s = Returned PyNone s
       ∧ length (items_of (state_after (extend items s) s))
         = length (items_of s)
       ∧ _change_event (state_after (extend items s) s) = _change_event s
       ∧ calls (state_after (extend items s) s) = calls s).
Proof.
  split; [|split].
  - intros Hne Hlock.
    destruct (extend_nonempty items s Hne Hlock) as (s' & ? & ? & ? & _).
    by exists s'.
  - intros Hne Hlock. destruct items as [|x items]; [done|].
    unfold extend. by run_method Hlock.
  - intros ->. done.
Qed.

(** *** remove *)

Lemma remove_found item s l' :
  _lock s = false →
  py_remove item (items_of s) = Some l' →
  ∃ s', remove item s = Returned PyNone s'
        ∧ items_of s' = l'
        ∧ _change_event s' = true
        ∧ _lock s' = false.
Proof.
  intros Hlock Hrm. unfold remove. run_method Hlock.
  unfold items_of in Hrm |- * at 1. simpl. rewrite Hrm. simpl.
  eexists. split; [reflexivity|]. simpl.
  split; [|done]. by rewrite items_of_put.
Qed.

Lemma remove_not_found item s :
  _lock s = false →
  py_remove item (items_of s) = None →
  ∃ s', remove item s = Raised AsyncioListError s'
        ∧ items_of s' = items_of s
        ∧ _change_event s' = _change_event s
        ∧ _lock s' = false.
Proof.
  intros Hlock Hrm. unfold remove. run_method Hlock.
  unfold items_of in Hrm |- * at 1. simpl. rewrite Hrm. simpl.
  eexists. split; [reflexivity|]. done.
Qed.

(** Where [==] holds of every object and itself, matching is [==]. *)
Lemma matches_py_eq :
  (∀ a : T, py_eq a a = true) → ∀ y v : T, matches y v = py_eq y v.
Proof.
  intros Hrefl y v. unfold matches.
  destruct (bool_decide_reflect (y = v)) as [->|]; [by rewrite Hrefl|done].
Qed.

(** C6, amended: [remove(v)] takes out the first element that is [v]
    itself or equals it ([==]) and nothing else, keeping the order of the
    rest, and sets the event; if no element is [v] or equals it, it fails
    with the container's NotFound error ([AsyncioListError]) and the list
    and the event are as before.  Where [==] holds of every object and
    itself, this is the first element equal to [v], and the failure when
    none is equal. *)
Theorem remove_spec v s :
  _lock s = false →
  (∀ l1 y l2, items_of s = l1 ++ y :: l2 →
     matches y v = true → (∀ z, z ∈ l1 → matches z v = false) →
     ∃ s', remove v s = Returned PyNone s' ∧ items_of s' = l1 ++ l2
           ∧ _change_event s' = true)
  ∧ ((∀ z, z ∈ items_of s → matches z v = false) →
     ∃ s', remove v s = Raised AsyncioListError s'
           ∧ items_of s' = items_of s
           ∧ _change_event s' = _change_event s)
  ∧ ((∀ a : T, py_eq a a = true) →
     (∀ l1 y l2, items_of s = l1 ++ y :: l2 →
        py_eq y v = true → (∀ z, z ∈ l1 → py_eq z v = false) →
        ∃ s', remove v s = Returned PyNone s' ∧ items_of s' = l1 ++ l2)
     ∧ ((∀ z, z ∈ items_of s → py_eq z v = false) →
        ∃ s', remove v s = Raised AsyncioListError s'
              ∧ items_of s' = items_of s)).
Proof.
  intros Hlock.
  assert (∀ l1 y l2, items_of s = l1 ++ y :: l2 →
     matches y v = true → (∀ z, z ∈ l1 → matches z v = false) →
     ∃ s', remove v s = Returned PyNone s' ∧ items_of s' = l1 ++ l2
           ∧ _change_event s' = true) as Hfound.
  { intros l1 y l2 Hitems Hy Hl1.
    destruct (remove_found v s (l1 ++ l2) Hlock) as (s' & ? & ? & ? & _).
    { rewrite Hitems. by apply py_remove_first. }
    by exists s'. }
  assert ((∀ z, z ∈ items_of s → matches z v = false) →
     ∃ s', remove v s = Raised AsyncioListError s'
           ∧ items_of s' = items_of s
           ∧ _change_event s' = _change_event s) as Habsent.
  { intros Hnone.
    destruct (remove_not_found v s Hlock) as (s' & ? & ? & ? & _).
    { by apply py_remove_absent. }
    by exists s'. }
  split; [done|]. split; [done|].
  intros Hrefl. pose proof (matches_py_eq Hrefl) as Hm. split.
  - intros l1 y l2 Hitems Hy Hl1.
    destruct (Hfound l1 y l2 Hitems) as (s' & ? & ? & _).
    + by rewrite Hm.
    + intros z Hz. rewrite Hm. by apply Hl1.
    + by exists s'.
  - intros Hnone. destruct Habsent as (s' & ? & ? & _).
    + intros z Hz. rewrite Hm. by apply Hnone.
    + by exists s'.
Qed.

(** *** delete_all *)

Lemma delete_all_returns item s :
  _lock s = false →
  ∃ s', delete_all item s = Returned PyNone s'
        ∧ items_of s' = filter (λ i, py_ne i item = true) (items_of s)
        ∧ _change_event s' = true
        ∧ _lock s' = false.
Proof.
  intros Hlock. unfold delete_all. run_method Hlock.
  eexists. split; [reflexivity|]. simpl.
  split; [|done]. by rewrite items_of_new.
Qed.

Lemma filter_ne_absent item l :
  (∀ y, y ∈ l → py_ne y item = true) →
  filter (λ i, py_ne i item = true) l = l.
Proof.
  induction l as [|y l IH]; intros Hall; [done|].
  rewrite filter_cons_True by (apply Hall; left).
  rewrite IH; [done|]. intros z Hz. apply Hall. by right.
Qed.

(** C8: [delete_all(v)] leaves exactly the elements that differ from [v]
    ([!=]), in their order, so every element that remains differs from
    [v]; it never raises; and the event is set afterwards also when every
    element differs from [v] and the contents are what they were.  Where
    differing from [v] is being another value than [v], the list is left
    without any [v], and as it was when it held none. *)
Theorem delete_all_spec v s :
  (∀ e s', delete_all v s ≠ Raised e s')
  ∧ (_lock s = false →
     ∃ s', delete_all v s = Returned PyNone s'
           ∧ items_of s' = filter (λ i, py_ne i v = true) (items_of s)
           ∧ (∀ y, y ∈ items_of s' → py_ne y v = true)
           ∧ _change_event s' = true
           ∧ ((∀ y, y ∈ items_of s → py_ne y v = true) →
              items_of s' = items_of s)
           ∧ ((∀ y, py_ne y v = true ↔ y ≠ v) →
              items_of s' = filter (λ i, i ≠ v) (items_of s)
              ∧ (v ∉ items_of s')
              ∧ (v ∉ items_of s → items_of s' = items_of s))).
Proof.
  split.
  - intros e s'. destruct (_lock s) eqn:Hlock.
    + unfold delete_all. by run_method Hlock.
    + destruct (delete_all_returns v s Hlock) as (s1 & -> & _). done.
  - intros Hlock.
    destruct (delete_all_returns v s Hlock) as (s' & Hrun & Hitems & Hev & _).
    exists s'. split_and!; [done|done| |done| |].
    + rewrite Hitems. intros y Hin. by apply list_elem_of_filter in Hin as [? _].
    + intros Hall. rewrite Hitems. by apply filter_ne_absent.
    + intros Hlawful. rewrite Hitems. split_and!.
      * by apply list_filter_iff.
      * intros Hin. apply list_elem_of_filter in Hin as [Hne _].
        by apply Hlawful in Hne.
      * intros Hnotin. apply filter_ne_absent. intros y Hy.
        apply Hlawful. by intros ->.
Qed.

(** *** pop and get *)

Lemma pop_returns index s x l' :
  _lock s = false →
  py_pop index (items_of s) = Popped x l' →
  ∃ s', pop index s = Returned x s'
        ∧ items_of s' = l'
        ∧ _change_event s' = true
        ∧ _lock s' = false.
Proof.
  intros Hlock Hpop. unfold pop. run_method Hlock.
  unfold items_of in Hpop |- * at 1. simpl. rewrite Hpop. simpl.
  destruct (_change_event s); simpl;
    (eexists; split; [reflexivity|]; simpl; split; [|done]);
    by rewrite items_of_put.
Qed.

Lemma pop_raises index s :
  _lock s = false →
  py_pop index (items_of s) = PopIndexError →
  ∃ s', pop index s = Raised IndexOutOfBoundsError s'
        ∧ items_of s' = items_of s
        ∧ _change_event s' = _change_event s
        ∧ _lock s' = false.
Proof.
  intros Hlock Hpop. unfold pop. run_method Hlock.
  unfold items_of in Hpop |- * at 1. simpl. rewrite Hpop. simpl.
  eexists. split; [reflexivity|]. done.
Qed.

(** The [OverflowError] of [list.pop] is no [IndexError]: the handler
    lets it pass. *)
Lemma pop_overflow index s :
  _lock s = false →
  py_pop index (items_of s) = PopOverflowError →
  pop index s = Raised OverflowError (after_lock s).
Proof.
  intros Hlock Hpop. unfold pop. run_method Hlock.
  unfold items_of in Hpop |- * at 1. simpl. by rewrite Hpop.
Qed.

Lemma pop_default_last s l x :
  _lock s = false →
  items_of s = l ++ [x] →
  ∃ s', pop_default s = Returned x s'
        ∧ items_of s' = l
        ∧ _change_event s' = true
        ∧ _lock s' = false.
Proof.
  intros Hlock Hitems. apply pop_returns; [done|].
  rewrite Hitems. apply py_pop_last.
Qed.

(** Popping as many times as there are elements returns them last to
    first and leaves the list empty. *)
Lemma drain_all l : ∀ s,
  _lock s = false →
  items_of s = l →
  ∃ s', drain (length l) s = (reverse l, s')
        ∧ items_of s' = []
        ∧ _lock s' = false.
Proof.
  induction l as [|x l IH] using rev_ind; intros s Hlock Hitems.
  - exists s. done.
  - rewrite length_app, Nat.add_comm. simpl.
    destruct (pop_default_last s l x Hlock Hitems)
      as (s1 & -> & Hitems1 & _ & Hlock1).
    destruct (IH s1 Hlock1 Hitems1) as (s2 & -> & Hitems2 & Hlock2).
    exists s2. by rewrite reverse_snoc.
Qed.

(** An index outside [[-n, n)]: [IndexOutOfBoundsError] when it is a
    [Py_ssize_t], the bare [OverflowError] when it is not; the list is as
    before either way. *)
Lemma pop_out_of_range index s :
  _lock s = false →
  index < - len (items_of s) ∨ len (items_of s) ≤ index →
  (as_ssize_t (len (items_of s)) index = Some index →
     ∃ s', pop index s = Raised IndexOutOfBoundsError s'
           ∧ items_of s' = items_of s
           ∧ _change_event s' = _change_event s)
  ∧ (as_ssize_t (len (items_of s)) index = None →
     pop index s = Raised OverflowError (after_lock s)).
Proof.
  intros Hlock Hr. split; intros Hfit.
  - destruct (pop_raises index s Hlock) as (s' & ? & ? & ? & _).
    { by apply py_pop_invalid. }
    by exists s'.
  - apply pop_overflow; [done|]. by apply py_pop_overflow.
Qed.

Lemma get_negative index s :
  _lock s = false →
  index < 0 →
  ∃ s', get index s = Raised IndexOutOfBoundsError s'
        ∧ items_of s' = items_of s.
Proof.
  intros Hlock Hneg. unfold get. run_method Hlock.
  destruct (Z.ltb_spec index 0); [|lia]. simpl.
  eexists. split; [reflexivity|]. done.
Qed.

Lemma get_in_range index s :
  _lock s = false →
  0 ≤ index < len (items_of s) →
  ∃ x s', items_of s !! Z.to_nat index = Some x
          ∧ get index s = Returned x s'
          ∧ items_of s' = items_of s.
Proof.
  intros Hlock Hr.
  destruct (lookup_lt_is_Some_2 (items_of s) (Z.to_nat index)) as [x Hx].
  { unfold len in Hr. lia. }
  exists x. unfold get. run_method Hlock.
  destruct (Z.ltb_spec index 0); [lia|].
  change (items_of (State (heap s) (_items s) true (_change_event s)
                          (calls s ++ [LockAcquire]))) with (items_of s).
  destruct (Z.leb_spec (len (items_of s)) index); [lia|]. simpl.
  rewrite Hx. simpl. eexists. split; [done|]. split; [reflexivity|]. done.
Qed.

(** *** What any call of another task can and cannot do *)

Section respects.
Context (R : relation (state T)) `{!PreOrder R}.

Lemma respects_ret {A} (a : A) : respects R (mret a).
Proof. intros s. simpl. reflexivity. Qed.

Lemma respects_raise {A} e : respects R (@raise T A e).
Proof. intros s. simpl. reflexivity. Qed.

Lemma respects_bind {A B} (m : M A) (k : A → M B) :
  respects R m → (∀ a, respects R (k a)) → respects R (m ≫= k).
Proof.
  intros Hm Hk s. specialize (Hm s). unfold_monad.
  destruct (m s) as [a s1|e s1|]; simpl in *; [|done|done].
  specialize (Hk a s1). destruct (k a s1); simpl in *;
    [by etransitivity|by etransitivity|reflexivity].
Qed.

Lemma respects_fmap {A B} (f : A → B) (m : M A) :
  respects R m → respects R (f <$> m).
Proof.
  intros Hm s. specialize (Hm s). unfold_monad.
  by destruct (m s).
Qed.

Lemma respects_try_except {A} (m : M A) cls handler :
  respects R m → respects R handler → respects R (try_except m cls handler).
Proof.
  intros Hm Hh s. specialize (Hm s). unfold try_except.
  destruct (m s) as [a s1|e s1|]; simpl in *; [done| |done].
  destruct (isinstance e cls); [|done].
  specialize (Hh s1). destruct (handler s1); simpl in *;
    [by etransitivity|by etransitivity|reflexivity].
Qed.

Lemma respects_try_finally {A} (m : M A) fin :
  respects R m → respects R fin → respects R (try_finally m fin).
Proof.
  intros Hm Hf s. specialize (Hm s). unfold try_finally. unfold_monad.
  destruct (m s) as [a s1|e s1|]; simpl in *; [| |done];
    specialize (Hf s1); destruct (fin s1); simpl in *;
    first [by etransitivity|reflexivity].
Qed.

Lemma respects_async_with_lock {A} (body : M A) :
  respects R lock_acquire → respects R lock_release →
  respects R body → respects R (async_with_lock body).
Proof.
  intros Ha Hr Hb. unfold async_with_lock.
  apply respects_bind; [done|]. intros _. by apply respects_try_finally.
Qed.

End respects.

Lemma only_calls_preorder P : PreOrder (@only_calls T P).
Proof.
  split.
  - intros s. exists []. by rewrite app_nil_r.
  - intros s1 s2 s3 (a1 & H1 & HP1) (a2 & H2 & HP2).
    exists (a1 ++ a2). rewrite H2, H1, app_assoc. split; [done|].
    by apply Forall_app.
Qed.

Lemma untouched_preorder : PreOrder (@untouched T).
Proof.
  split.
  - intros s. done.
  - intros s1 s2 s3 (? & ? & ?) (? & ? & ?). unfold untouched.
    split_and!; congruence.
Qed.

Lemma keeps_preorder p : PreOrder (@keeps T p).
Proof.
  split.
  - intros s ? ?. done.
  - intros s1 s2 s3 H12 H23 Hdom Hne.
    destruct (H12 Hdom Hne) as (Heq1 & Hdom2 & Hne2).
    destruct (H23 Hdom2 Hne2) as (Heq2 & Hdom3 & Hne3).
    split; [congruence|done].
Qed.

#[local] Existing Instances
  only_calls_preorder untouched_preorder keeps_preorder.


Ltac respects_prim :=
  let s := fresh "s" in
  intros s; unfold_prims; unfold_monad; simpl;
  try match goal with
      | |- context [if _lock s then _ else _] => destruct (_lock s); simpl
      end.

Section only_calls_prims.
Context (P : prim → Prop).

Lemma only_calls_one s s' c :
  P c → calls s' = calls s ++ [c] → only_calls P s s'.
Proof. intros HP Hc. exists [c]. split; [done|]. by apply Forall_singleton. Qed.

Lemma only_calls_none s s' : calls s' = calls s → only_calls P s s'.
Proof. intros Hc. exists []. by rewrite app_nil_r. Qed.

Lemma only_calls_lock_acquire :
  P LockAcquire → respects (only_calls P) (@lock_acquire T).
Proof.
  intros HP. respects_prim;
    [by apply only_calls_none|by eapply only_calls_one].
Qed.

Lemma only_calls_lock_release :
  P LockRelease → respects (only_calls P) (@lock_release T).
Proof.
  intros HP. respects_prim;
    [by eapply only_calls_one|by apply only_calls_none].
Qed.

Lemma only_calls_event_set :
  P EventSet → respects (only_calls P) (@event_set T).
Proof. intros HP. respects_prim. by eapply only_calls_one. Qed.

Lemma only_calls_event_is_set : respects (only_calls P) (@event_is_set T).
Proof. respects_prim. by apply only_calls_none. Qed.

Lemma only_calls_get_items : respects (only_calls P) (@get_items T).
Proof. respects_prim. by apply only_calls_none. Qed.

Lemma only_calls_put_items l : respects (only_calls P) (put_items l).
Proof. respects_prim. by apply only_calls_none. Qed.

Lemma only_calls_new_list l : respects (only_calls P) (new_list l).
Proof. respects_prim. by apply only_calls_none. Qed.

Lemma only_calls_rebind_items p : respects (only_calls P) (@rebind_items T p).
Proof. respects_prim. by apply only_calls_none. Qed.

End only_calls_prims.

Lemma untouched_lock_acquire : respects untouched (@lock_acquire T).
Proof. by respects_prim. Qed.

Lemma untouched_lock_release : respects untouched (@lock_release T).
Proof. by respects_prim. Qed.

Lemma untouched_event_is_set : respects untouched (@event_is_set T).
Proof. by respects_prim. Qed.

Lemma untouched_get_items : respects untouched (@get_items T).
Proof. by respects_prim. Qed.

Section keeps_prims.
Context (p : loc).

Lemma keeps_lock_acquire : respects (keeps p) (@lock_acquire T).
Proof. by respects_prim. Qed.

Lemma keeps_lock_release : respects (keeps p) (@lock_release T).
Proof. by respects_prim. Qed.

Lemma keeps_event_set : respects (keeps p) (@event_set T).
Proof. by respects_prim. Qed.

Lemma keeps_event_is_set : respects (keeps p) (@event_is_set T).
Proof. by respects_prim. Qed.

Lemma keeps_get_items : respects (keeps p) (@get_items T).
Proof. by respects_prim. Qed.

Lemma keeps_put_items l : respects (keeps p) (put_items l).
Proof.
  respects_prim. intros Hdom Hne. simpl.
  rewrite lookup_insert_ne, dom_insert_L by done. set_solver.
Qed.

Lemma fresh_list_address s :
  (fresh (dom (heap s) ∪ {[_items s]}) ∉ dom (heap s))
  ∧ fresh (dom (heap s) ∪ {[_items s]}) ≠ _items s.
Proof.
  pose proof (is_fresh (dom (heap s) ∪ {[_items s]})) as Hfresh.
  set_solver.
Qed.

Lemma keeps_new_list l : respects (keeps p) (new_list l).
Proof.
  respects_prim. intros Hdom Hne. simpl.
  destruct (fresh_list_address s) as [Hf _].
  rewrite lookup_insert_ne, dom_insert_L by set_solver. set_solver.
Qed.

(** Rebinding [_items] to a list made just before, as [delete_all] does. *)
Lemma keeps_new_list_rebind {A} l (k : M A) :
  respects (keeps p) k →
  respects (keeps p) (q ← new_list l; rebind_items q ;; k).
Proof.
  intros Hk s. unfold new_list, rebind_items. unfold_monad. simpl.
  set (q := fresh (dom (heap s) ∪ {[_items s]})).
  set (s1 := State (<[q:=l]> (heap s)) q (_lock s) (_change_event s) (calls s)).
  assert (keeps p s s1) as Hs1.
  { intros Hdom Hne. subst s1. simpl.
    destruct (fresh_list_address s) as [Hf _]. fold q in Hf.
    rewrite lookup_insert_ne, dom_insert_L by set_solver. set_solver. }
  specialize (Hk s1). destruct (k s1); simpl in *;
    [by etransitivity|by etransitivity|reflexivity].
Qed.

End keeps_prims.

End method_facts.

Create HintDb respects discriminated.
#[export] Hint Resolve
  only_calls_lock_acquire only_calls_lock_release only_calls_event_set
  only_calls_event_is_set only_calls_get_items only_calls_put_items
  only_calls_new_list only_calls_rebind_items
  untouched_lock_acquire untouched_lock_release untouched_event_is_set
  untouched_get_items
  keeps_lock_acquire keeps_lock_release keeps_event_set keeps_event_is_set
  keeps_get_items keeps_put_items keeps_new_list : respects.

(** Breaks a method down to the primitives it is made of. *)
Ltac respects_method :=
  unfold_methods; unfold list_remove, list_insert, list_pop, list_index;
  repeat match goal with
    | |- PreOrder _ => apply _
    | |- respects _ (mret _) => apply respects_ret
    | |- respects _ (raise _) => apply respects_raise
    | |- respects (keeps _) (new_list _ ≫= _) => apply keeps_new_list_rebind
    | |- respects _ (_ ≫= _) => apply respects_bind; [| |intros ?]
    | |- respects _ (_ <$> _) => apply respects_fmap
    | |- respects _ (try_except _ _ _) => apply respects_try_except
    | |- respects _ (try_finally _ _) => apply respects_try_finally
    | |- respects _ (async_with_lock _) => apply respects_async_with_lock
    | |- respects _ (match ?x with _ => _ end) => destruct x
    | |- respects _ _ => solve [eauto with respects]
    end.

Section call_facts.
Context {T : Type} `{EqDecision T} `{PyCompare T}.
Implicit Types (s : state T) (l : list T) (c : call T).

#[local] Existing Instances
  only_calls_preorder untouched_preorder keeps_preorder.


(** A read-only call uses the lock and nothing else. *)
Lemma exec_read_only_calls c :
  read_only c = true →
  respects (only_calls (λ p, p = LockAcquire ∨ p = LockRelease)) (exec c).
Proof. intros Hro. destruct c; try done; respects_method. Qed.

Lemma exec_read_only_untouched c :
  read_only c = true → respects untouched (exec c).
Proof. intros Hro. destruct c; try done; respects_method. Qed.

(** A list object other than the container's is out of a call's reach. *)
Lemma exec_keeps p c : respects (keeps p) (exec c).
Proof. destruct c; respects_method. Qed.

(** *** The change event *)

Lemma append_returns item s :
  _lock s = false →
  ∃ s', append item s = Returned PySelf s'
        ∧ items_of s' = items_of s ++ [item]
        ∧ _change_event s' = true
        ∧ _lock s' = false.
Proof.
  intros Hlock. unfold append. run_method Hlock.
  destruct (_change_event s); simpl;
    (eexists; split; [reflexivity|]; simpl; split; [|done]);
    by rewrite items_of_put.
Qed.

Lemma clear_returns s :
  _lock s = false →
  ∃ s', clear s = Returned PyNone s'
        ∧ items_of s' = []
        ∧ _change_event s' = true
        ∧ _lock s' = false.
Proof.
  intros Hlock. unfold clear. run_method Hlock.
  eexists. split; [reflexivity|]. simpl. by rewrite items_of_put.
Qed.

Lemma reverse_returns s :
  _lock s = false →
  ∃ s', reverse_ s = Returned PySelf s'
        ∧ items_of s' = reverse (items_of s)
        ∧ _change_event s' = true
        ∧ _lock s' = false.
Proof.
  intros Hlock. unfold reverse_. run_method Hlock.
  eexists. split; [reflexivity|]. simpl. by rewrite items_of_put.
Qed.

Lemma sort_returns kwargs s :
  _lock s = false →
  ∃ s', sort kwargs s = Returned PySelf s'
        ∧ items_of s' = py_sort kwargs (items_of s)
        ∧ _change_event s' = true
        ∧ _lock s' = false.
Proof.
  intros Hlock. unfold sort. run_method Hlock.
  eexists. split; [reflexivity|]. simpl. by rewrite items_of_put.
Qed.

(** While the lock is held, every mutating call stays suspended. *)
Lemma exec_mutating_blocked c s :
  mutating c = true → _lock s = true → exec c s = Blocked.
Proof.
  intros Hmut Hlock.
  destruct c as [| [|x items] | | | | | | | | | | | | | | | |]; try done;
    unfold_methods; by run_method Hlock.
Qed.

(** From a free lock a mutating call does not stay suspended: it
    returns with the event set, or it raises with the list and the event
    as they were: [insert] and [pop] the [OverflowError] of an index that
    is no [Py_ssize_t], [pop] [IndexOutOfBoundsError] at another index
    outside [[-n, n)], [remove] [AsyncioListError] when nothing matches;
    the other calls raise nothing. *)
Lemma exec_mutating_total c s :
  mutating c = true → _lock s = false →
  (∃ v s', exec c s = Returned v s' ∧ _change_event s' = true)
  ∨ (∃ e s', exec c s = Raised e s'
       ∧ items_of s' = items_of s
       ∧ _change_event s' = _change_event s
       ∧ match c with
         | CallInsert i _ =>
             e = OverflowError ∧ as_ssize_t (len (items_of s)) i = None
         | CallPop i =>
             ¬ (- len (items_of s) ≤ i < len (items_of s))
             ∧ e = match as_ssize_t (len (items_of s)) i with
                   | Some _ => IndexOutOfBoundsError
                   | None => OverflowError
                   end
         | CallRemove item =>
             e = AsyncioListError
             ∧ ∀ z, z ∈ items_of s → matches z item = false
         | _ => False
         end).
Proof.
  intros Hmut Hlock. destruct c; try done; simpl; unfold_monad.
  - destruct (append_returns item s Hlock) as (s1 & -> & _ & ? & _).
    left. by eexists _, _.
  - destruct (extend_nonempty items s) as (s1 & -> & _ & ? & _);
      [by apply bool_decide_eq_true in Hmut|done|].
    left. by eexists _, _.
  - destruct (as_ssize_t (len (items_of s)) index0) as [i|] eqn:Hfit.
    + pose proof (as_ssize_t_Some _ _ _ Hfit) as ->.
      destruct (insert_returns index0 item s Hlock Hfit)
        as (s1 & -> & _ & ? & _).
      left. by eexists _, _.
    + rewrite (insert_overflow index0 item s Hlock Hfit).
      right. by eexists _, _.
  - destruct (py_remove item (items_of s)) as [l'|] eqn:Hrm.
    + destruct (remove_found item s l' Hlock Hrm) as (s1 & -> & _ & ? & _).
      left. by eexists _, _.
    + destruct (remove_not_found item s Hlock Hrm) as (s1 & -> & ? & ? & _).
      right. eexists _, _. split_and!; try done. by apply py_remove_None.
  - destruct (py_pop index0 (items_of s)) as [x l'| |] eqn:Hpop.
    + destruct (pop_returns index0 s x l' Hlock Hpop)
        as (s1 & -> & _ & ? & _).
      left. by eexists _, _.
    + destruct (pop_raises index0 s Hlock Hpop) as (s1 & -> & ? & ? & _).
      right. eexists _, _. split_and!; try done.
      * intros Hr. destruct (py_pop_valid index0 (items_of s) Hr)
          as (x & _ & Hx). congruence.
      * destruct (as_ssize_t (len (items_of s)) index0) eqn:Hfit; [done|].
        rewrite py_pop_overflow in Hpop by done. done.
    + rewrite (pop_overflow index0 s Hlock Hpop).
      right. eexists _, _. split_and!; try done.
      * intros Hr. destruct (py_pop_valid index0 (items_of s) Hr)
          as (x & _ & Hx). congruence.
      * unfold py_pop in Hpop.
        destruct (as_ssize_t (len (items_of s)) index0); [|done].
        by repeat case_match.
  - destruct (clear_returns s Hlock) as (s1 & -> & _ & ? & _).
    left. by eexists _, _.
  - destruct (reverse_returns s Hlock) as (s1 & -> & _ & ? & _).
    left. by eexists _, _.
  - destruct (sort_returns kwargs s Hlock) as (s1 & -> & _ & ? & _).
    left. by eexists _, _.
  - destruct (delete_all_returns item s Hlock) as (s1 & -> & _ & ? & _).
    left. by eexists _, _.
Qed.

Lemma exec_mutating c s v s' :
  mutating c = true →
  exec c s = Returned v s' →
  _change_event s' = true.
Proof.
  intros Hmut Hexec. destruct (_lock s) eqn:Hlock.
  { by rewrite exec_mutating_blocked in Hexec. }
  destruct (exec_mutating_total c s Hmut Hlock)
    as [(v1 & s1 & Hrun & Hev)|(e & s1 & Hrun & _)];
    rewrite Hrun in Hexec; by simplify_eq.
Qed.

(** Leaving [async with lst:] sets the event, whatever the block did. *)
Lemma async_with_self_returned {A} (body : M A) s a s' :
  async_with_self body s = Returned a s' → _change_event s' = true.
Proof.
  unfold async_with_self, __aenter__, __aexit__. unfold_prims. unfold_monad.
  destruct (_lock s); simpl; [done|].
  match goal with
  | |- context [body ?st] => destruct (body st) as [b s1|e s1|]
  end;
    simpl; [|by destruct (_lock s1)|done].
  destruct (_lock s1); simpl; [|done].
  intros Heq. by simplify_eq.
Qed.

Lemma aexit_sets_event s :
  _lock s = true →
  ∃ s', __aexit__ s = Returned PyNone s'
        ∧ _change_event s' = true
        ∧ _lock s' = false
        ∧ items_of s' = items_of s.
Proof.
  intros Hlock. unfold __aexit__. run_method Hlock.
  eexists. split; [reflexivity|]. done.
Qed.

(** A block that works on the list directly: the list is what the block
    made of it, and the event is set, also when the block changed
    nothing. *)
Lemma async_with_self_raw f s :
  _lock s = false →
  ∃ s', async_with_self (raw_update f) s = Returned () s'
        ∧ items_of s' = f (items_of s)
        ∧ _change_event s' = true
        ∧ _lock s' = false.
Proof.
  intros Hlock. unfold async_with_self, __aenter__, __aexit__, raw_update.
  run_method Hlock.
  eexists. split; [reflexivity|]. simpl. by rewrite items_of_put.
Qed.

Lemma only_calls_weaken (P Q : prim → Prop) s s' :
  (∀ p, P p → Q p) → only_calls P s s' → only_calls Q s s'.
Proof.
  intros HPQ (added & Hcalls & HP). exists added. split; [done|].
  eapply Forall_impl; eauto.
Qed.

(** One step of an iteration takes the lock for the snapshot and does
    nothing else to the container. *)
Lemma anext_effect g s :
  items_of (state_after (__anext__ g s).2 s) = items_of s
  ∧ _items (state_after (__anext__ g s).2 s) = _items s
  ∧ _change_event (state_after (__anext__ g s).2 s) = _change_event s
  ∧ only_calls (λ p, p = LockAcquire ∨ p = LockRelease)
      s (state_after (__anext__ g s).2 s).
Proof.
  destruct g as [|p pos|]; simpl.
  - unfold_prims. unfold_monad. destruct (_lock s) eqn:Hlock; simpl.
    { split_and!; try done; by apply only_calls_none. }
    unfold for_step. simpl.
    match goal with |- context [match ?x with _ => _ end] => destruct x end;
      simpl; (split_and!; [|done|done|]).
    1,3: unfold items_of; simpl;
         destruct (fresh_list_address s) as [_ Hf];
         by rewrite lookup_insert_ne.
    all: exists [LockAcquire; LockRelease]; simpl;
         rewrite <- app_assoc; split; [done|];
         repeat first [apply List.Forall_nil | apply List.Forall_cons; [auto|]].
  - unfold for_step. case_match; simpl;
      (split_and!; try done; by apply only_calls_none).
  - split_and!; try done; by apply only_calls_none.
Qed.

(** A scoped block whose body comes back with the lock still held is
    left with the lock released and the event set, by a return as by an
    exception. *)
Lemma async_with_self_exit {A} (body : M A) s :
  _lock s = false →
  (∀ a s1, body (state_after (__aenter__ s) s) = Returned a s1 →
     _lock s1 = true →
     ∃ s', async_with_self body s = Returned a s'
           ∧ _change_event s' = true ∧ _lock s' = false)
  ∧ (∀ e s1, body (state_after (__aenter__ s) s) = Raised e s1 →
       _lock s1 = true →
       ∃ s', async_with_self body s = Raised e s'
             ∧ _change_event s' = true ∧ _lock s' = false).
Proof.
  intros Hlock.
  unfold async_with_self, __aenter__, __aexit__. run_method Hlock.
  split.
  - intros a s1 -> Hheld. simpl. rewrite Hheld. simpl. by eexists.
  - intros e s1 -> Hheld. simpl. rewrite Hheld. simpl. by eexists.
Qed.

(** C2: from a free lock every mutating operation comes back: it returns
    with the event set, or it raises its own failure ([insert] or [pop]
    at an index that is no [Py_ssize_t], [pop] at another index outside
    [[-n, n)], [remove] of what is not there) with the event as it was;
    [append], [extend] with a non-empty argument, [clear], [reverse],
    [sort] and [delete_all] always return.  Every mutating operation that
    returns leaves the event set, and so does leaving a scoped block: by
    [__aexit__] alone, around a block of direct accesses, or around any
    block that comes back with the lock held; a read-only operation,
    whether it returns or raises, and a step of an iteration leave the
    event flag as it was and make no call that sets it. *)
Theorem change_event_set_by_mutations_only :
  (∀ (c : call T) s v s',
     mutating c = true → exec c s = Returned v s' → _change_event s' = true)
  ∧ (∀ (c : call T) s,
       mutating c = true → _lock s = false →
       (∃ v s', exec c s = Returned v s' ∧ _change_event s' = true)
       ∨ (∃ e s', exec c s = Raised e s'
            ∧ items_of s' = items_of s
            ∧ _change_event s' = _change_event s
            ∧ match c with
              | CallInsert i _ =>
                  e = OverflowError
                  ∧ as_ssize_t (len (items_of s)) i = None
              | CallPop i =>
                  ¬ (- len (items_of s) ≤ i < len (items_of s))
                  ∧ e = match as_ssize_t (len (items_of s)) i with
                        | Some _ => IndexOutOfBoundsError
                        | None => OverflowError
                        end
              | CallRemove item =>
                  e = AsyncioListError
                  ∧ ∀ z, z ∈ items_of s → matches z item = false
              | _ => False
              end))
  ∧ (∀ s, _lock s = false →
       (∀ i item, as_ssize_t (len (items_of s)) i = Some i →
          ∃ s', insert i item s = Returned PyNone s'
                ∧ _change_event s' = true)
       ∧ (∀ i, - len (items_of s) ≤ i < len (items_of s) →
            ∃ x s', pop i s = Returned x s' ∧ _change_event s' = true)
       ∧ (∀ item y, y ∈ items_of s → matches y item = true →
            ∃ s', remove item s = Returned PyNone s'
                  ∧ _change_event s' = true))
  ∧ (∀ s, _lock s = true →
       ∃ s', __aexit__ s = Returned PyNone s' ∧ _change_event s' = true)
  ∧ (∀ f s, _lock s = false →
       ∃ s', async_with_self (raw_update f) s = Returned () s'
             ∧ _change_event s' = true)
  ∧ (∀ A (body : M A) s a s',
       async_with_self body s = Returned a s' → _change_event s' = true)
  ∧ (∀ A (body : M A) s, _lock s = false →
       (∀ a s1, body (state_after (__aenter__ s) s) = Returned a s1 →
          _lock s1 = true →
          ∃ s', async_with_self body s = Returned a s'
                ∧ _change_event s' = true ∧ _lock s' = false)
       ∧ (∀ e s1, body (state_after (__aenter__ s) s) = Raised e s1 →
            _lock s1 = true →
            ∃ s', async_with_self body s = Raised e s'
                  ∧ _change_event s' = true ∧ _lock s' = false))
  ∧ (∀ (c : call T) s,
       read_only c = true →
       _change_event (run c s) = _change_event s
       ∧ only_calls (λ p, p ≠ EventSet) s (run c s))
  ∧ (∀ g s,
       _change_event (state_after (__anext__ g s).2 s) = _change_event s
       ∧ only_calls (λ p, p ≠ EventSet)
           s (state_after (__anext__ g s).2 s)).
Proof.
  split_and!.
  - apply exec_mutating.
  - apply exec_mutating_total.
  - intros s Hlock. split_and!.
    + intros i item Hfit.
      destruct (insert_returns i item s Hlock Hfit) as (s' & ? & _ & ? & _).
      by exists s'.
    + intros i Hr.
      destruct (py_pop_valid i (items_of s) Hr) as (x & _ & Hpop).
      destruct (pop_returns i s _ _ Hlock Hpop) as (s' & ? & _ & ? & _).
      by exists x, s'.
    + intros item y Hin Hy.
      destruct (py_remove item (items_of s)) as [l'|] eqn:Hrm.
      * destruct (remove_found item s l' Hlock Hrm) as (s' & ? & _ & ? & _).
        by exists s'.
      * rewrite py_remove_None in Hrm. rewrite (Hrm y Hin) in Hy. done.
  - intros s Hlock.
    destruct (aexit_sets_event s Hlock) as (s' & ? & ? & _). by exists s'.
  - intros f s Hlock.
    destruct (async_with_self_raw f s Hlock) as (s' & ? & _ & ? & _).
    by exists s'.
  - intros A body s a s'. apply async_with_self_returned.
  - intros A body s Hlock. by apply async_with_self_exit.
  - intros c s Hro. split.
    + apply (exec_read_only_untouched c Hro s).
    + eapply only_calls_weaken; [|apply (exec_read_only_calls c Hro s)].
      intros p [-> | ->]; done.
  - intros g s. destruct (anext_effect g s) as (_ & _ & ? & Hcalls).
    split; [done|].
    eapply only_calls_weaken; [|exact Hcalls].
    intros p [-> | ->]; done.
Qed.

(** *** wait_for_change *)




Lemma cleared_event s : _change_event (cleared s) = false.
Proof. done. Qed.











Lemma wait_for_change_unfold timeout start lag (env : list (activity T)) s :
  wait_for_change timeout start lag env s
  = match wait_for timeout start lag env s with
    | Returned _ s1 => Returned true (cleared s1)
    | Raised e s1 =>
        if isinstance e TimeoutError
        then Returned false (cleared s1)
        else Raised e (cleared s1)
    | Blocked => Blocked
    end.
Proof.
  unfold wait_for_change, try_finally, try_except, cleared, event_clear.
  unfold_monad.
  destruct (wait_for timeout start lag env s) as [b s1|e s1|]; simpl;
    [done| |done].
  by destruct (isinstance e TimeoutError).
Qed.



(** *** Iteration *)

Lemma run_all_keeps p cs : ∀ s, keeps p s (run_all cs s).
Proof.
  induction cs as [|c cs IH]; intros s; simpl; [reflexivity|].
  etransitivity; [apply (exec_keeps p c s)|apply IH].
Qed.

(** A list object that is not the container's is the same after any
    calls of the other tasks. *)
Lemma run_all_other_list p l cs s :
  heap s !! p = Some l → p ≠ _items s →
  heap (run_all cs s) !! p = Some l ∧ p ≠ _items (run_all cs s).
Proof.
  intros Hp Hne.
  destruct (run_all_keeps p cs s) as (Heq & _ & Hne'); [|done|].
  { apply elem_of_dom. by eexists. }
  by rewrite Heq.
Qed.

(** From a [yield] on, the loop receives what is left of the local list
    [items], whatever the other tasks do to the container. *)
Lemma async_for_suspended p snap sched : ∀ pos s,
  heap s !! p = Some snap → p ≠ _items s →
  ∃ g' s',
    async_for sched (AGenSuspended p pos) s
    = (take (length sched) (drop pos snap), g', s')
    ∧ ((length (drop pos snap) < length sched)%nat → g' = AGenClosed).
Proof.
  induction sched as [|others sched IH]; intros pos s Hp Hne.
  - exists (AGenSuspended p pos), s. split; [done|]. simpl. lia.
  - simpl. unfold for_step. rewrite Hp. simpl.
    destruct (snap !! pos) as [x|] eqn:Hx.
    + destruct (run_all_other_list p snap others s Hp Hne) as [Hp' Hne'].
      destruct (IH (S pos) _ Hp' Hne') as (g' & s' & -> & Hclosed).
      exists g', s'. rewrite (drop_S _ _ _ Hx). simpl. split; [done|].
      intros Hlen. apply Hclosed. lia.
    + exists AGenClosed, s. apply lookup_ge_None in Hx.
      by rewrite drop_ge by lia.
Qed.

Lemma async_for_snapshot sched s :
  _lock s = false →
  ∃ g' s',
    async_for sched __aiter__ s = (take (length sched) (items_of s), g', s')
    ∧ ((length (items_of s) < length sched)%nat → g' = AGenClosed).
Proof.
  intros Hlock. destruct sched as [|others sched].
  { exists AGenCreated, s. split; [done|]. simpl. lia. }
  unfold __aiter__. simpl. run_method Hlock.
  destruct (fresh_list_address s) as [_ Hfresh].
  set (p := fresh (dom (heap s) ∪ {[_items s]})) in *.
  unfold for_step. simpl. rewrite lookup_insert_eq. simpl.
  change (items_of (State (heap s) (_items s) true (_change_event s)
                          (calls s ++ [LockAcquire]))) with (items_of s).
  destruct (items_of s) as [|x l] eqn:Hitems; simpl.
  { do 2 eexists. split; [done|done]. }
  set (s1 := run_all others _).
  destruct (async_for_suspended p (x :: l) sched 1 s1) as (g' & s' & -> & Hcl).
  - subst s1. eapply run_all_other_list; simpl; [|done].
    by rewrite lookup_insert_eq.
  - subst s1. eapply run_all_other_list; simpl; [|done].
    by rewrite lookup_insert_eq.
  - simpl. rewrite drop_0 in *. exists g', s'. split; [done|].
    intros Hlen. apply Hcl. simpl in *. rewrite drop_0. lia.
Qed.

(** C4: the loop receives the elements the list had when the iteration
    took its snapshot, in order, whatever calls the other tasks complete
    between the steps (as many elements as the loop has rounds; with more
    rounds than elements, all of them, and the generator is finished);
    the snapshot is taken by the first step, which waits for the lock
    and holds it for the copy only; and a step of the iteration changes
    neither the contents of the container nor the event, and makes no call
    that sets the event. *)
Theorem async_iteration_snapshot :
  (∀ (sched : list (list (call T))) s,
     _lock s = false →
     (length (items_of s) < length sched)%nat →
     ∃ s', async_for sched __aiter__ s = (items_of s, AGenClosed, s'))
  ∧ (∀ (sched : list (list (call T))) s,
       _lock s = false →
       (async_for sched __aiter__ s).1.1 = take (length sched) (items_of s))
  ∧ (∀ s, _lock s = true → (__anext__ __aiter__ s).2 = Blocked)
  ∧ (∀ s, _lock s = false →
       calls (state_after (__anext__ __aiter__ s).2 s)
       = calls s ++ [LockAcquire; LockRelease])
  ∧ (∀ g s,
       items_of (state_after (__anext__ g s).2 s) = items_of s
       ∧ _change_event (state_after (__anext__ g s).2 s) = _change_event s
       ∧ only_calls (λ p, p ≠ EventSet)
           s (state_after (__anext__ g s).2 s)).
Proof.
  split_and!.
  - intros sched s Hlock Hlen.
    destruct (async_for_snapshot sched s Hlock) as (g' & s' & -> & Hcl).
    rewrite (Hcl Hlen), take_ge by lia. by exists s'.
  - intros sched s Hlock.
    by destruct (async_for_snapshot sched s Hlock) as (g' & s' & -> & _).
  - intros s Hlock. unfold __aiter__. simpl. by run_method Hlock.
  - intros s Hlock. unfold __aiter__. simpl. run_method Hlock.
    unfold for_step. case_match; simpl; by rewrite <- app_assoc.
  - intros g s. destruct (anext_effect g s) as (? & _ & ? & Hcalls).
    split_and!; [done|done|].
    eapply only_calls_weaken; [|exact Hcalls].
    intros p [-> | ->]; done.
Qed.

(** *** Construction *)

(** C5: without an argument the container is empty; with a list it holds
    the same elements in a list object of its own: a new one, different
    from the argument, so that no call on the container changes the
    argument and a later change of the argument does not show in the
    container; any argument that is neither absent nor a list is refused
    with the InvalidArgument error ([TypeError]). *)
Theorem init_spec (h : gmap loc (list T)) :
  (∃ s, __init__ h ObjNone = Constructed s
        ∧ items_of s = [] ∧ _lock s = false ∧ _change_event s = false)
  ∧ (∀ q l, h !! q = Some l →
       ∃ s, __init__ h (ObjList q) = Constructed s
            ∧ items_of s = l
            ∧ _items s ≠ q ∧ h !! _items s = None
            ∧ heap s !! q = Some l
            ∧ (∀ cs, heap (run_all cs s) !! q = Some l)
            ∧ (∀ l', items_of (State (<[q := l']> (heap s)) (_items s)
                                     (_lock s) (_change_event s) (calls s))
                     = l))
  ∧ (∀ o : pyobj T,
       is_none o = false → is_list o = false →
       __init__ h o = InitRaised TypeError).
Proof.
  split_and!.
  - eexists. split; [reflexivity|]. by rewrite items_of_new.
  - intros q l Hq. unfold __init__. simpl. rewrite Hq. simpl.
    eexists. split; [reflexivity|].
    pose proof (is_fresh (dom h)) as Hfresh.
    assert (fresh (dom h) ≠ q) as Hne.
    { intros Heq. apply Hfresh. rewrite Heq. apply elem_of_dom. by eexists. }
    assert (heap (State (<[fresh (dom h) := l]> h) (fresh (dom h))
                        false false []) !! q = Some l) as Hq'.
    { simpl. by rewrite lookup_insert_ne. }
    simpl. split_and!.
    + by rewrite items_of_new.
    + done.
    + by apply not_elem_of_dom.
    + done.
    + intros cs. by eapply run_all_other_list.
    + intros l'. unfold items_of. simpl.
      by rewrite lookup_insert_ne, lookup_insert_eq.
  - intros o Hnone Hlist. unfold __init__. by rewrite Hnone, Hlist.
Qed.

End call_facts.

(** ** The properties on a container of integers *)

Lemma items_of_sample l : items_of (sample l) = l.
Proof. reflexivity. Qed.

(** C1, at an index outside [[0, n]]: [insert(5, 9)] on [[1, 2, 3]] does
    not fail with IndexOutOfBounds; it returns, the list has become
    [[1, 2, 3, 9]] and the event is set.  The same happens at [-1], which
    gives [[1, 2, 9, 3]], and at [-10], which gives [[9, 1, 2, 3]]. *)
Theorem insert_outside_range_returns :
  (∃ s', insert 5 9 (sample [1; 2; 3]) = Returned PyNone s'
         ∧ items_of s' = [1; 2; 3; 9] ∧ _change_event s' = true)
  ∧ (∃ s', insert (-1) 9 (sample [1; 2; 3]) = Returned PyNone s'
           ∧ items_of s' = [1; 2; 9; 3] ∧ _change_event s' = true)
  ∧ (∃ s', insert (-10) 9 (sample [1; 2; 3]) = Returned PyNone s'
           ∧ items_of s' = [9; 1; 2; 3] ∧ _change_event s' = true).
Proof.
  split_and!; eexists; (split; [reflexivity|split; reflexivity]).
Qed.

(** C7, at an index that is no [Py_ssize_t]: [pop(2 ** 63)] does not
    fail with IndexOutOfBounds, on [[1, 2, 3]] as on the empty list: the
    [OverflowError] of [list.pop] is no [IndexError] and passes the
    handler (the list is as before and the lock is released).  [get]
    answers the same index with IndexOutOfBounds, and so does [pop] at
    the largest [Py_ssize_t]. *)
Theorem pop_beyond_ssize_t_overflows :
  pop (2 ^ 63) (sample [1; 2; 3])
  = Raised OverflowError (after_lock (sample [1; 2; 3]))
  ∧ pop (2 ^ 63) (sample []) = Raised OverflowError (after_lock (sample []))
  ∧ pop (2 ^ 63 - 1) (sample [1; 2; 3])
    = Raised IndexOutOfBoundsError (after_lock (sample [1; 2; 3]))
  ∧ get (2 ^ 63) (sample [1; 2; 3])
    = Raised IndexOutOfBoundsError (after_lock (sample [1; 2; 3])).
Proof. split_and!; reflexivity. Qed.

(** C10, at a negative index that is no [Py_ssize_t]: [pop(-2 ** 63 - 1)]
    on [[1, 2, 3]], an index outside [[-n, n)], does not fail with
    IndexOutOfBounds but with the [OverflowError] of [list.pop]; at
    [-2 ** 63], the least [Py_ssize_t], it fails with IndexOutOfBounds,
    as [get] does at both. *)
Theorem pop_negative_beyond_ssize_t_overflows :
  pop (- 2 ^ 63 - 1) (sample [1; 2; 3])
  = Raised OverflowError (after_lock (sample [1; 2; 3]))
  ∧ pop (- 2 ^ 63) (sample [1; 2; 3])
    = Raised IndexOutOfBoundsError (after_lock (sample [1; 2; 3]))
  ∧ get (- 2 ^ 63 - 1) (sample [1; 2; 3])
    = Raised IndexOutOfBoundsError (after_lock (sample [1; 2; 3]))
  ∧ get (- 2 ^ 63) (sample [1; 2; 3])
    = Raised IndexOutOfBoundsError (after_lock (sample [1; 2; 3])).
Proof. split_and!; reflexivity. Qed.

(** C6 as stated fails on [[nan]]: no element equals [nan] by value, yet
    [remove(nan)] with the same object does not fail with NotFound; it
    returns and the list is empty. *)
Lemma remove_by_value_counterexample :
  (∀ y, y ∈ items_of (sample_floats [NaN]) → py_eq y NaN = false)
  ∧ (∃ s', remove NaN (sample_floats [NaN]) = Returned PyNone s'
           ∧ items_of s' = [] ∧ _change_event s' = true)
  ∧ (∀ e s', remove NaN (sample_floats [NaN]) ≠ Raised e s').
Proof.
  split_and!.
  - intros y Hy. by destruct y.
  - eexists. split; [reflexivity|]. split; reflexivity.
  - intros e s'. discriminate.
Qed.

Lemma remove_spec_witness :
  (∃ s', remove 1 (sample [1; 2; 1]) = Returned PyNone s'
         ∧ items_of s' = [2; 1] ∧ _change_event s' = true)
  ∧ (∃ s', remove 5 (sample [1; 2; 1]) = Raised AsyncioListError s'
           ∧ items_of s' = [1; 2; 1]
           ∧ _change_event s' = false)
  ∧ (∃ s', remove NaN (sample_floats [Float 1; NaN; NaN]) = Returned PyNone s'
           ∧ items_of s' = [Float 1; NaN] ∧ _change_event s' = true)
  ∧ (∃ s', remove 2 (sample [1; 2; 1]) = Returned PyNone s'
           ∧ items_of s' = [1; 1]).
Proof.
  split_and!.
  - apply (proj1 (remove_spec 1 (sample [1; 2; 1]) eq_refl) [] 1 [2; 1]).
    + reflexivity.
    + reflexivity.
    + intros z Hz. by apply elem_of_nil in Hz.
  - apply (proj1 (proj2 (remove_spec 5 (sample [1; 2; 1]) eq_refl))).
    rewrite items_of_sample. intros z Hz.
    apply list_elem_of_In in Hz. simpl in Hz.
    destruct Hz as [<-|[<-|[<-|[]]]]; reflexivity.
  - apply (proj1 (remove_spec NaN (sample_floats [Float 1; NaN; NaN]) eq_refl)
             [Float 1] NaN [NaN]).
    + reflexivity.
    + reflexivity.
    + intros z Hz. apply list_elem_of_In in Hz. simpl in Hz.
      destruct Hz as [<-|[]]. reflexivity.
  - apply (proj1 (proj2 (proj2 (@remove_spec Z _ Z_compare 2
                                  (sample [1; 2; 1]) eq_refl))
                    Z.eqb_refl) [1] 2 [1]).
    + reflexivity.
    + reflexivity.
    + intros z Hz. apply list_elem_of_In in Hz. simpl in Hz.
      destruct Hz as [<-|[]]. reflexivity.
Defined.


Lemma extend_spec_witness :
  (∃ s', extend [3; 4] (sample [1; 2]) = Returned PyNone s'
         ∧ items_of s' = [1; 2; 3; 4] ∧ _change_event s' = true)
  ∧ extend [3; 4] (sample_locked [1; 2]) = Blocked
  ∧ (extend [] (sample_locked [1; 2]) = Returned PyNone (sample_locked [1; 2])
     ∧ length (items_of (state_after (extend [] (sample_locked [1; 2]))
                                     (sample_locked [1; 2]))) = 2%nat
     ∧ _change_event (state_after (extend [] (sample_locked [1; 2]))
                                  (sample_locked [1; 2])) = false
     ∧ calls (state_after (extend [] (sample_locked [1; 2]))
                          (sample_locked [1; 2])) = [LockAcquire]).
Proof.
  split; [|split].
  - apply (proj1 (extend_spec [3; 4] (sample [1; 2]))); [done|reflexivity].
  - apply (proj1 (proj2 (extend_spec [3; 4] (sample_locked [1; 2]))));
      [done|reflexivity].
  - apply (proj2 (proj2 (extend_spec [] (sample_locked [1; 2])))).
    reflexivity.
Defined.

Lemma py_ne_Z (y v : Z) : py_ne y v = true ↔ y ≠ v.
Proof. simpl. by rewrite negb_true_iff, Z.eqb_neq. Qed.

Lemma matches_Z (y v : Z) : matches y v = true ↔ y = v.
Proof.
  unfold matches. simpl.
  rewrite orb_true_iff, bool_decide_eq_true, Z.eqb_eq. tauto.
Qed.

Lemma delete_all_spec_witness :
  (∃ s', delete_all 1 (sample [1; 2; 1; 1]) = Returned PyNone s'
         ∧ items_of s' = [2]
         ∧ (1 ∉ items_of s')
         ∧ _change_event s' = true)
  ∧ (∃ s', delete_all 1 (sample [2]) = Returned PyNone s'
           ∧ items_of s' = [2]
           ∧ (1 ∉ items_of s')
           ∧ _change_event s' = true
           ∧ items_of s' = items_of (sample [2])).
Proof.
  split.
  - destruct (proj2 (delete_all_spec 1 (sample [1; 2; 1; 1])) eq_refl)
      as (s' & Hrun & Hitems & _ & Hev & _ & Hlawful).
    destruct (Hlawful (λ y, py_ne_Z y 1)) as (_ & Hnotin & _).
    exists s'. split_and!; [exact Hrun|exact Hitems|exact Hnotin|exact Hev].
  - destruct (proj2 (delete_all_spec 1 (sample [2])) eq_refl)
      as (s' & Hrun & Hitems & _ & Hev & Hsame & Hlawful).
    destruct (Hlawful (λ y, py_ne_Z y 1)) as (_ & Hnotin & _).
    exists s'.
    split_and!; [exact Hrun|exact Hitems|exact Hnotin|exact Hev|].
    apply Hsame. intros y Hy. apply list_elem_of_In in Hy. simpl in Hy.
    destruct Hy as [<-|[]]. reflexivity.
Defined.

Lemma init_spec_witness :
  (∃ s, __init__ (heap (sample [1; 2])) ObjNone = Constructed s
        ∧ items_of s = [] ∧ _lock s = false ∧ _change_event s = false)
  ∧ (∃ s, __init__ (heap (sample [1; 2])) (ObjList 1%positive) = Constructed s
          ∧ items_of s = [1; 2]
          ∧ _items s ≠ 1%positive
          ∧ heap (sample [1; 2]) !! _items s = None
          ∧ heap s !! 1%positive = Some [1; 2]
          ∧ (∀ cs, heap (run_all cs s) !! 1%positive = Some [1; 2])
          ∧ (∀ l', items_of (State (<[1%positive := l']> (heap s)) (_items s)
                                   (_lock s) (_change_event s) (calls s))
                   = [1; 2]))
  ∧ __init__ (heap (sample [1; 2])) (ObjTuple [1; 2]) = InitRaised TypeError.
Proof.
  split_and!.
  - apply (proj1 (init_spec (heap (sample [1; 2])))).
  - apply (proj1 (proj2 (init_spec (heap (sample [1; 2])))) 1%positive [1; 2]).
    reflexivity.
  - apply (proj2 (proj2 (init_spec (heap (sample [1; 2]))))); reflexivity.
Defined.

Lemma async_iteration_snapshot_witness :
  (∃ s', async_for [[]; [CallAppend 4]; [CallDeleteAll 1]; []] __aiter__
                   (sample [1; 2; 3])
         = ([1; 2; 3], AGenClosed, s'))
  ∧ (async_for [[]; [CallAppend 4]] __aiter__ (sample [1; 2; 3])).1.1 = [1; 2]
  ∧ (__anext__ __aiter__ (sample_locked [1; 2; 3])).2 = Blocked
  ∧ calls (state_after (__anext__ __aiter__ (sample [1; 2; 3])).2
                       (sample [1; 2; 3]))
    = [LockAcquire; LockRelease].
Proof.
  split; [|split; [|split]].
  - apply (proj1 async_iteration_snapshot
             [[]; [CallAppend 4]; [CallDeleteAll 1]; []] (sample [1; 2; 3]));
      [reflexivity|].
    rewrite items_of_sample. simpl. lia.
  - apply (proj1 (proj2 async_iteration_snapshot)
             [[]; [CallAppend 4]] (sample [1; 2; 3])).
    reflexivity.
  - apply (proj1 (proj2 (proj2 async_iteration_snapshot))
             (sample_locked [1; 2; 3])).
    reflexivity.
  - apply (proj1 (proj2 (proj2 (proj2 async_iteration_snapshot)))
             (sample [1; 2; 3])).
    reflexivity.
Defined.


Lemma change_event_set_by_mutations_only_witness :
  (∃ v s', exec (CallPop (-1)) (sample [1; 2]) = Returned v s'
           ∧ _change_event s' = true)
  ∧ ((∃ v s', exec (CallSort (SortKwargs Z.ltb false)) (sample [2; 1])
              = Returned v s' ∧ _change_event s' = true)
     ∨ (∃ e s', exec (CallSort (SortKwargs Z.ltb false)) (sample [2; 1])
                = Raised e s'
                ∧ items_of s' = [2; 1]
                ∧ _change_event s' = false
                ∧ False))
  ∧ (∃ s', insert 7 9 (sample [1; 2]) = Returned PyNone s'
           ∧ _change_event s' = true)
  ∧ (∃ x s', pop (-2) (sample [1; 2]) = Returned x s'
             ∧ _change_event s' = true)
  ∧ (∃ s', remove 2 (sample [1; 2]) = Returned PyNone s'
           ∧ _change_event s' = true)
  ∧ (∃ s', __aexit__ (sample_locked [1; 2]) = Returned PyNone s'
           ∧ _change_event s' = true)
  ∧ (∃ s', async_with_self (raw_update (λ l, l)) (sample [1; 2])
           = Returned () s'
           ∧ _change_event s' = true)
  ∧ (∃ s', async_with_self (get_items ≫= λ l, mret (len l)) (sample [1; 2])
           = Returned 2 s'
           ∧ _change_event s' = true)
  ∧ (∃ s', async_with_self (raise ValueError : M unit) (sample [1; 2])
           = Raised ValueError s'
           ∧ _change_event s' = true ∧ _lock s' = false)
  ∧ (_change_event (run (CallGet 5) (sample [1; 2])) = false
     ∧ only_calls (λ p, p ≠ EventSet)
         (sample [1; 2]) (run (CallGet 5) (sample [1; 2]))).
Proof.
  destruct (@change_event_set_by_mutations_only Z _ _)
    as (Hmut & Htotal & Hwhen & Hexit & Hraw & Hbody & Hblock & Hro & _).
  destruct (Hwhen (sample [1; 2]) eq_refl) as (Hinsert & Hpop & Hremove).
  split_and!.
  - eexists _, _. split; [reflexivity|].
    apply (Hmut (CallPop (-1)) (sample [1; 2]) _ _ eq_refl eq_refl).
  - apply (Htotal (CallSort (SortKwargs Z.ltb false)) (sample [2; 1])
             eq_refl eq_refl).
  - apply (Hinsert 7 9). reflexivity.
  - apply (Hpop (-2)). unfold len. rewrite items_of_sample. simpl. lia.
  - apply (Hremove 2 2); [|reflexivity].
    rewrite items_of_sample. apply list_elem_of_In. simpl. tauto.
  - apply (Hexit (sample_locked [1; 2]) eq_refl).
  - apply (Hraw (λ l, l) (sample [1; 2]) eq_refl).
  - eexists. split; [reflexivity|].
    eapply (Hbody Z (get_items ≫= λ l, mret (len l)) (sample [1; 2])).
    reflexivity.
  - eapply (proj2 (Hblock unit (raise ValueError) (sample [1; 2]) eq_refl));
      reflexivity.
  - apply (Hro (CallGet 5) (sample [1; 2]) eq_refl).
  - apply (Hro (CallGet 5) (sample [1; 2]) eq_refl).
Defined.



End AsyncioListFacts.

(** * More on the list methods *)

Module PyBuiltinsSpec.
Import PyBuiltinsFacts.
Section list_spec.
Context {T : Type} `{EqDecision T} `{PyCompare T}.
Implicit Types (l : list T) (x : T).

Lemma len_nonneg l : 0 ≤ len l.
Proof. unfold len. lia. Qed.

Lemma index_bound_nonneg n b : 0 ≤ n → 0 ≤ index_bound n b.
Proof.
  intros Hn. unfold index_bound.
  repeat match goal with |- context [?a <? ?b] => destruct (Z.ltb_spec a b) end;
    lia.
Qed.

(** [index_from] finds the first position that holds [x] or an element
    equal to it. *)
Lemma index_from_first x l : ∀ (k : nat) i,
  holds_match l k x →
  (∀ k', (k' < k)%nat → ¬ holds_match l k' x) →
  index_from x l i = Some (i + Z.of_nat k).
Proof.
  induction l as [|y l IH]; intros k i Hk Hfirst.
  { by destruct Hk as (? & ? & _). }
  simpl. destruct k as [|k].
  - destruct Hk as (y' & [= <-] & ->). f_equal. lia.
  - destruct (matches y x) eqn:Hy.
    + exfalso. apply (Hfirst 0%nat); [lia|]. by exists y.
    + rewrite (IH k (i + 1)); [f_equal; lia|exact Hk|].
      intros k' Hk'. apply (Hfirst (S k')). lia.
Qed.

Lemma index_from_absent x l i :
  (∀ k, ¬ holds_match l k x) → index_from x l i = None.
Proof.
  revert i. induction l as [|y l IH]; intros i Habs; [done|]. simpl.
  destruct (matches y x) eqn:Hy.
  - exfalso. apply (Habs 0%nat). by exists y.
  - apply IH. intros k. apply (Habs (S k)).
Qed.

(** The two bounds [list.index] searches between. *)
Lemma index_window_lookup l (lo hi : Z) (k : nat) :
  0 ≤ lo →
  drop (Z.to_nat lo) (take (Z.to_nat hi) l) !! k
  = if decide (lo + Z.of_nat k < hi) then l !! Z.to_nat (lo + Z.of_nat k)
    else None.
Proof.
  intros Hlo. rewrite lookup_drop.
  replace (Z.to_nat lo + k)%nat with (Z.to_nat (lo + Z.of_nat k)) by lia.
  destruct (decide (lo + Z.of_nat k < hi)).
  - apply lookup_take_lt. lia.
  - apply lookup_take_ge. lia.
Qed.

Lemma holds_match_window l (lo hi : Z) (k : nat) x :
  0 ≤ lo →
  holds_match (drop (Z.to_nat lo) (take (Z.to_nat hi) l)) k x
  ↔ lo + Z.of_nat k < hi ∧ holds_match l (Z.to_nat (lo + Z.of_nat k)) x.
Proof.
  intros Hlo. unfold holds_match. rewrite index_window_lookup by done.
  destruct (decide (lo + Z.of_nat k < hi)).
  - split; [by intros Hm|by intros [_ Hm]].
  - split; [by intros (? & ? & _)|by intros [? _]].
Qed.

(** Where [list.index(x, start, stop)] looks: from [lo] up to, not
    including, [hi]. *)
Lemma py_index_first x start stop l (j : Z) :
  let lo := index_bound (len l) start in
  let hi := match stop with
            | Some e => index_bound (len l) e
            | None => len l
            end in
  lo ≤ j < hi →
  holds_match l (Z.to_nat j) x →
  (∀ j', lo ≤ j' < j → ¬ holds_match l (Z.to_nat j') x) →
  py_index x start stop l = Some j.
Proof.
  intros lo hi Hj Hx Hfirst. unfold py_index. fold lo hi.
  assert (0 ≤ lo) as Hlo by apply index_bound_nonneg, len_nonneg.
  rewrite (index_from_first x _ (Z.to_nat (j - lo)) lo).
  - f_equal. lia.
  - apply holds_match_window; [done|]. split; [lia|].
    by replace (lo + Z.of_nat (Z.to_nat (j - lo))) with j by lia.
  - intros k' Hk' Hm. apply holds_match_window in Hm as [? Hm]; [|done].
    revert Hm. apply Hfirst. lia.
Qed.

Lemma py_index_absent x start stop l :
  let lo := index_bound (len l) start in
  let hi := match stop with
            | Some e => index_bound (len l) e
            | None => len l
            end in
  (∀ j, lo ≤ j < hi → ¬ holds_match l (Z.to_nat j) x) →
  py_index x start stop l = None.
Proof.
  intros lo hi Habs. unfold py_index. fold lo hi.
  assert (0 ≤ lo) as Hlo by apply index_bound_nonneg, len_nonneg.
  apply index_from_absent. intros k Hm.
  apply holds_match_window in Hm as [? Hm]; [|done].
  revert Hm. apply Habs. lia.
Qed.

(** A slice with step 1 between two positions of the list is the
    stretch between them. *)
Lemma slice_lookups l (lo : Z) : ∀ (k b : nat),
  0 ≤ lo →
  (Z.to_nat lo + b + k ≤ length l)%nat →
  omap (λ i : nat, l !! Z.to_nat (lo + Z.of_nat i * 1)) (seq b k)
  = take k (drop (Z.to_nat lo + b) l).
Proof.
  induction k as [|k IH]; intros b Hlo Hlen; [done|]. simpl.
  replace (Z.to_nat (lo + Z.of_nat b * 1)) with (Z.to_nat lo + b)%nat by lia.
  destruct (lookup_lt_is_Some_2 l (Z.to_nat lo + b)) as [x Hx]; [lia|].
  rewrite Hx. simpl. rewrite (drop_S _ _ _ Hx). simpl. f_equal.
  rewrite IH by lia. f_equal. f_equal. lia.
Qed.

Lemma py_slice_contiguous start stop l :
  0 ≤ start ≤ stop → stop ≤ len l →
  py_slice start stop 1 l
  = Some (take (Z.to_nat (stop - start)) (drop (Z.to_nat start) l)).
Proof.
  intros Hr Hstop. unfold py_slice. simpl.
  assert (slice_bound (len l) 1 start = start) as ->.
  { unfold slice_bound.
    destruct (Z.ltb_spec start 0); [lia|].
    destruct (Z.leb_spec (len l) start); simpl; lia. }
  assert (slice_bound (len l) 1 stop = stop) as ->.
  { unfold slice_bound.
    destruct (Z.ltb_spec stop 0); [lia|].
    destruct (Z.leb_spec (len l) stop); simpl; lia. }
  assert (Z.to_nat (slice_length start stop 1) = Z.to_nat (stop - start)) as ->.
  { unfold slice_length. simpl.
    destruct (Z.ltb_spec start stop); [|lia].
    rewrite Z.div_1_r. lia. }
  unfold len in Hstop.
  rewrite (slice_lookups l start _ 0%nat) by lia.
  by rewrite Nat.add_0_r.
Qed.

(** [list.sort] rearranges, and puts in order. *)
Lemma sorted_insert_perm (lt : T → T → bool) x l :
  sorted_insert lt x l ≡ₚ x :: l.
Proof.
  induction l as [|y l IH]; simpl; [done|].
  destruct (lt y x); [|done].
  rewrite IH. apply Permutation_swap.
Qed.

Lemma stable_sort_perm (lt : T → T → bool) l : stable_sort lt l ≡ₚ l.
Proof.
  induction l as [|x l IH]; simpl; [done|].
  fold (stable_sort lt l). by rewrite sorted_insert_perm, IH.
Qed.

Lemma py_sort_perm kw l : py_sort kw l ≡ₚ l.
Proof.
  unfold py_sort. destruct (reverse_flag kw).
  - by rewrite reverse_Permutation, stable_sort_perm, reverse_Permutation.
  - apply stable_sort_perm.
Qed.

Section sorted.
Context (lt : T → T → bool).
Context (lt_asym : ∀ a b, lt a b = true → lt b a = false).
Context (le_trans : ∀ a b c, lt b a = false → lt c b = false → lt c a = false).

Lemma sorted_insert_sorted x l :
  StronglySorted (may_precede lt) l → StronglySorted (may_precede lt) (sorted_insert lt x l).
Proof.
  induction l as [|y l IH]; intros Hs; simpl.
  - repeat constructor.
  - apply StronglySorted_cons in Hs as [Hy Hs].
    destruct (lt y x) eqn:Hyx.
    + apply StronglySorted_cons. split; [|by apply IH].
      rewrite sorted_insert_perm. constructor; [|done].
      by apply lt_asym.
    + apply StronglySorted_cons. split.
      * constructor; [done|].
        eapply Forall_impl; [exact Hy|]. intros z Hz. by eapply le_trans.
      * by apply StronglySorted_cons.
Qed.

Lemma stable_sort_sorted l : StronglySorted (may_precede lt) (stable_sort lt l).
Proof.
  induction l as [|x l IH]; simpl; [constructor|].
  by apply sorted_insert_sorted.
Qed.

Lemma reverse_sorted (R : relation T) l :
  StronglySorted R l → StronglySorted (flip R) (reverse l).
Proof.
  induction l as [|x l IH]; intros Hs; [constructor|].
  apply StronglySorted_cons in Hs as [Hx Hs].
  rewrite reverse_cons. apply StronglySorted_app. split_and!.
  - intros x1 x2 Hx1 Hx2. apply list_elem_of_singleton in Hx2 as ->.
    rewrite elem_of_reverse in Hx1. unfold flip.
    rewrite Forall_forall in Hx. by apply Hx.
  - by apply IH.
  - repeat constructor.
Qed.

Lemma py_sort_sorted kw l :
  key_lt kw = lt →
  if reverse_flag kw
  then StronglySorted (flip (may_precede lt)) (py_sort kw l)
  else StronglySorted (may_precede lt) (py_sort kw l).
Proof.
  intros Hkw. unfold py_sort. rewrite Hkw. destruct (reverse_flag kw).
  - apply reverse_sorted, stable_sort_sorted.
  - apply stable_sort_sorted.
Qed.

End sorted.

End list_spec.
End PyBuiltinsSpec.

(** * More on the container *)

Module AsyncioListUsage.
Import PyBuiltinsFacts PyBuiltinsSpec AsyncioList AsyncioListFacts.

Section method_equations.
Context {T : Type} `{EqDecision T} `{PyCompare T}.
Implicit Types (s : state T) (l : list T) (x item : T) (c : call T).

Lemma items_of_after_lock s : items_of (after_lock s) = items_of s.
Proof. done. Qed.

(** What the read-only methods come to, lock free. *)
Lemma get_eq index s :
  _lock s = false →
  get index s
  = if (index <? 0) || (len (items_of s) <=? index)
    then Raised IndexOutOfBoundsError (after_lock s)
    else match items_of s !! Z.to_nat index with
         | Some x => Returned x (after_lock s)
         | None => Raised IndexError (after_lock s)
         end.
Proof.
  intros Hlock. unfold get. run_method Hlock.
  change (items_of (State (heap s) (_items s) true (_change_event s)
                          (calls s ++ [LockAcquire]))) with (items_of s).
  destruct ((index <? 0) || (len (items_of s) <=? index)); [done|].
  by destruct (items_of s !! Z.to_nat index).
Qed.

Lemma index_eq item start end_ s :
  _lock s = false →
  index item start end_ s
  = match py_index item start end_ (items_of s) with
    | Some i => Returned i (after_lock s)
    | None => Raised AsyncioListError (after_lock s)
    end.
Proof.
  intros Hlock. unfold index. destruct end_ as [e|]; run_method Hlock;
    change (items_of (State (heap s) (_items s) true (_change_event s)
                            (calls s ++ [LockAcquire]))) with (items_of s);
    by destruct (py_index item start _ (items_of s)).
Qed.

Lemma count_eq item s :
  _lock s = false →
  count item s = Returned (py_count item (items_of s)) (after_lock s).
Proof. intros Hlock. unfold count. by run_method Hlock. Qed.

Lemma contains_eq item s :
  _lock s = false →
  contains item s = Returned (py_contains item (items_of s)) (after_lock s).
Proof. intros Hlock. unfold contains. by run_method Hlock. Qed.

Lemma slice_eq start stop step s :
  _lock s = false →
  slice start stop step s
  = match py_slice start stop step (items_of s) with
    | Some r => Returned r (after_lock s)
    | None => Raised ValueError (after_lock s)
    end.
Proof.
  intros Hlock. unfold slice. run_method Hlock.
  change (items_of (State (heap s) (_items s) true (_change_event s)
                          (calls s ++ [LockAcquire]))) with (items_of s).
  by destruct (py_slice start stop step (items_of s)).
Qed.

Lemma length_eq s :
  _lock s = false →
  length_ s = Returned (len (items_of s)) (after_lock s).
Proof. intros Hlock. unfold length_. by run_method Hlock. Qed.

Lemma is_empty_eq s :
  _lock s = false →
  is_empty s = Returned (len (items_of s) =? 0) (after_lock s).
Proof.
  intros Hlock. unfold is_empty. unfold_monad. by rewrite length_eq.
Qed.

(** A mutating method that fails has only taken and released the lock. *)
Lemma remove_raises_eq item s :
  _lock s = false →
  py_remove item (items_of s) = None →
  remove item s = Raised AsyncioListError (after_lock s).
Proof.
  intros Hlock Hrm. unfold remove. run_method Hlock.
  unfold items_of in Hrm |- * at 1. simpl. by rewrite Hrm.
Qed.

Lemma pop_raises_eq index s :
  _lock s = false →
  py_pop index (items_of s) = PopIndexError →
  pop index s = Raised IndexOutOfBoundsError (after_lock s).
Proof.
  intros Hlock Hpop. unfold pop. run_method Hlock.
  unfold items_of in Hpop |- * at 1. simpl. by rewrite Hpop.
Qed.

(** Any call, lock free: it does not stay suspended, it leaves the lock
    free, and if it raises it has done nothing but take and release the
    lock, and the error is one of the container's own, or the
    [ValueError] of a slice with step 0, or the [OverflowError] of
    [insert] or [pop] with an index that is no [Py_ssize_t]. *)
Lemma exec_lock_free c s :
  _lock s = false →
  match exec c s with
  | Returned _ s' => _lock s' = false
  | Raised e s' =>
      s' = after_lock s
      ∧ (isinstance e AsyncioListError = true
         ∨ (e = ValueError ∧ ∃ a b, c = CallSlice a b 0)
         ∨ (e = OverflowError
            ∧ ∃ i, fits_ssize_t i = false
                   ∧ (c = CallPop i ∨ ∃ item, c = CallInsert i item)))
  | Blocked => False
  end.
Proof.
  intros Hlock. destruct c; simpl; unfold_monad.
  - by destruct (append_returns item s Hlock) as (s' & -> & _ & _ & ?).
  - destruct items as [|x items]; [done|].
    by destruct (extend_nonempty (x :: items) s) as (s' & -> & _ & _ & ?).
  - destruct (as_ssize_t (len (items_of s)) index0) as [i|] eqn:Hfit.
    + pose proof (as_ssize_t_Some _ _ _ Hfit) as ->.
      by destruct (insert_returns index0 item s Hlock Hfit)
        as (s' & -> & _ & _ & ?).
    + rewrite insert_overflow by done. split; [done|]. right. right.
      split; [done|]. exists index0.
      apply as_ssize_t_None in Hfit as [? _]. split; [done|]. right.
      by exists item.
  - destruct (py_remove item (items_of s)) as [l'|] eqn:Hrm.
    + by destruct (remove_found item s l' Hlock Hrm) as (s' & -> & _ & _ & ?).
    + rewrite remove_raises_eq by done. split; [done|by left].
  - destruct (py_pop index0 (items_of s)) as [x l'| |] eqn:Hpop.
    + by destruct (pop_returns index0 s x l' Hlock Hpop)
        as (s' & -> & _ & _ & ?).
    + rewrite pop_raises_eq by done. split; [done|by left].
    + rewrite pop_overflow by done. split; [done|]. right. right.
      split; [done|]. exists index0.
      apply py_pop_overflow_inv, as_ssize_t_None in Hpop as [? _].
      split; [done|by left].
  - by destruct (clear_returns s Hlock) as (s' & -> & _ & _ & ?).
  - by destruct (reverse_returns s Hlock) as (s' & -> & _ & _ & ?).
  - by destruct (sort_returns kwargs s Hlock) as (s' & -> & _ & _ & ?).
  - by destruct (delete_all_returns item s Hlock) as (s' & -> & _ & _ & ?).
  - by destruct (async_with_self_raw f s Hlock) as (s' & -> & _ & _ & ?).
  - rewrite get_eq by done.
    destruct ((index0 <? 0) || (len (items_of s) <=? index0)) eqn:Hout.
    { split; [done|by left]. }
    apply orb_false_iff in Hout as [Hneg Hlen].
    apply Z.ltb_ge in Hneg. apply Z.leb_gt in Hlen.
    destruct (lookup_lt_is_Some_2 (items_of s) (Z.to_nat index0)) as [x ->];
      [unfold len in Hlen; lia|done].
  - by rewrite length_eq.
  - done.
  - by rewrite count_eq.
  - by rewrite contains_eq.
  - rewrite index_eq by done.
    destruct (py_index item start end_ (items_of s)); [done|].
    split; [done|by left].
  - rewrite slice_eq by done. unfold py_slice.
    destruct (Z.eqb_spec step 0) as [->|Hstep]; [|done].
    split; [done|]. right. left. split; [done|]. by exists start, stop.
  - by rewrite is_empty_eq.
Qed.

(** While the lock is held, every call that needs it stays suspended. *)
Lemma exec_blocked c s :
  _lock s = true → takes_lock c = true → exec c s = Blocked.
Proof.
  intros Hlock Htakes.
  destruct c as [| [|x items] | | | | | | | | | | | | | | | |]; try done;
    unfold_methods; by run_method Hlock.
Qed.

(** *** Single methods *)

(** X1: [append] puts the item at the end, hands back the container and
    leaves the event set; it calls [Event.set] only when the event was
    not set already. *)
Theorem append_effect item s :
  _lock s = false →
  ∃ s', append item s = Returned PySelf s'
        ∧ items_of s' = items_of s ++ [item]
        ∧ _change_event s' = true
        ∧ _lock s' = false
        ∧ calls s' = calls s ++ [LockAcquire]
                     ++ (if _change_event s then [] else [EventSet])
                     ++ [LockRelease].
Proof.
  intros Hlock. unfold append. run_method Hlock.
  destruct (_change_event s); simpl;
    (eexists; split; [reflexivity|]; simpl; split_and!; try done);
    try (by rewrite items_of_put); by rewrite <- !app_assoc.
Qed.

(** X2: [get] hands back the element at an index in [[0, n)] and leaves
    the container as it was; at every other index, the negative ones
    included, it fails with [IndexOutOfBoundsError]. *)
Theorem get_bounds index s :
  _lock s = false →
  (0 ≤ index < len (items_of s) →
     ∃ x, items_of s !! Z.to_nat index = Some x
          ∧ get index s = Returned x (after_lock s))
  ∧ (¬ (0 ≤ index < len (items_of s)) →
     get index s = Raised IndexOutOfBoundsError (after_lock s)).
Proof.
  intros Hlock. rewrite get_eq by done. split.
  - intros Hr.
    destruct (Z.ltb_spec index 0); [lia|].
    destruct (Z.leb_spec (len (items_of s)) index); [lia|]. simpl.
    destruct (lookup_lt_is_Some_2 (items_of s) (Z.to_nat index)) as [x Hx];
      [unfold len in Hr; lia|].
    exists x. by rewrite Hx.
  - intros Hr.
    destruct (Z.ltb_spec index 0); [done|].
    destruct (Z.leb_spec (len (items_of s)) index); [done|lia].
Qed.

Lemma holds_match_lookup item l k :
  (∀ y, matches y item = true ↔ y = item) →
  holds_match l k item ↔ l !! k = Some item.
Proof.
  intros Hlawful. unfold holds_match. split.
  - intros (y & Hy & Hm). apply Hlawful in Hm. by subst.
  - intros Hk. exists item. split; [done|]. by apply Hlawful.
Qed.

(** X3: [index] hands back the first position within the window
    [[start, end)] (bounds normalised as [list.index] does) that holds
    the item (the item itself or an element equal to it), and fails with
    [AsyncioListError] when the window holds none, whatever lies outside
    it.  Where only the item itself matches the item, this is the first
    position at which the item stands. *)
Theorem index_first_in_window item start end_ s :
  _lock s = false →
  (∀ j,
     index_bound (len (items_of s)) start ≤ j
     < match end_ with
       | Some e => index_bound (len (items_of s)) e
       | None => len (items_of s)
       end →
     holds_match (items_of s) (Z.to_nat j) item →
     (∀ j', index_bound (len (items_of s)) start ≤ j' < j →
            ¬ holds_match (items_of s) (Z.to_nat j') item) →
     index item start end_ s = Returned j (after_lock s))
  ∧ ((∀ j,
        index_bound (len (items_of s)) start ≤ j
        < match end_ with
          | Some e => index_bound (len (items_of s)) e
          | None => len (items_of s)
          end →
        ¬ holds_match (items_of s) (Z.to_nat j) item) →
     index item start end_ s = Raised AsyncioListError (after_lock s))
  ∧ ((∀ y, matches y item = true ↔ y = item) →
     (∀ j,
        index_bound (len (items_of s)) start ≤ j
        < match end_ with
          | Some e => index_bound (len (items_of s)) e
          | None => len (items_of s)
          end →
        items_of s !! Z.to_nat j = Some item →
        (∀ j', index_bound (len (items_of s)) start ≤ j' < j →
               items_of s !! Z.to_nat j' ≠ Some item) →
        index item start end_ s = Returned j (after_lock s))
     ∧ ((∀ j,
           index_bound (len (items_of s)) start ≤ j
           < match end_ with
             | Some e => index_bound (len (items_of s)) e
             | None => len (items_of s)
             end →
           items_of s !! Z.to_nat j ≠ Some item) →
        index item start end_ s = Raised AsyncioListError (after_lock s))).
Proof.
  intros Hlock. rewrite index_eq by done. split_and!.
  - intros j Hj Hx Hfirst. by rewrite (py_index_first item start end_ _ j).
  - intros Habs. by rewrite py_index_absent.
  - intros Hlawful. split.
    + intros j Hj Hx Hfirst.
      rewrite (py_index_first item start end_ _ j); [done|done| |].
      * by apply holds_match_lookup.
      * intros j' Hj'. rewrite holds_match_lookup by done. by apply Hfirst.
    + intros Habs. rewrite py_index_absent; [done|].
      intros j Hj. rewrite holds_match_lookup by done. by apply Habs.
Qed.

(** Some element of [l] is [x] or equals it. *)
Lemma first_match x l :
  (∃ y, y ∈ l ∧ matches y x = true) →
  ∃ k0, holds_match l k0 x ∧ ∀ k', (k' < k0)%nat → ¬ holds_match l k' x.
Proof.
  induction l as [|y l IH]; intros (z & Hz & Hm).
  { by apply elem_of_nil in Hz. }
  destruct (matches y x) eqn:Hy.
  - exists 0%nat. split; [by exists y|]. intros k' Hk'. lia.
  - apply elem_of_cons in Hz as [->|Hz]; [congruence|].
    destruct IH as (k0 & Hk0 & Hfirst); [by exists z|].
    exists (S k0). split; [exact Hk0|].
    intros [|k'] Hk'.
    + intros (y' & [= <-] & Hy'). congruence.
    + apply Hfirst. lia.
Qed.

Lemma index_from_Some x l i j :
  index_from x l i = Some j →
  i ≤ j ∧ holds_match l (Z.to_nat (j - i)) x.
Proof.
  revert i. induction l as [|y l IH]; intros i; simpl; [done|].
  destruct (matches y x) eqn:Hy.
  - intros [= <-]. split; [lia|]. rewrite Z.sub_diag. by exists y.
  - intros Hj. apply IH in Hj as [Hle Hm]. split; [lia|].
    replace (Z.to_nat (j - i)) with (S (Z.to_nat (j - (i + 1)))) by lia.
    exact Hm.
Qed.

Lemma holds_match_elem l k x :
  holds_match l k x → ∃ y, y ∈ l ∧ matches y x = true.
Proof.
  intros (y & Hy & Hm). exists y. split; [|done].
  by eapply list_elem_of_lookup_2.
Qed.

Lemma index_from_None_iff x l i :
  index_from x l i = None ↔ ¬ ∃ y, y ∈ l ∧ matches y x = true.
Proof.
  split.
  - intros Hnone Hin. destruct (first_match x l Hin) as (k0 & Hk0 & Hfirst).
    rewrite (index_from_first x l k0 i Hk0 Hfirst) in Hnone. done.
  - intros Hnotin. apply index_from_absent. intros k Hk.
    apply Hnotin. by eapply holds_match_elem.
Qed.

Lemma py_index_whole x l : py_index x 0 None l = index_from x l 0.
Proof.
  unfold py_index, index_bound, len. simpl.
  by rewrite Nat2Z.id, firstn_all.
Qed.

Lemma py_count_pos x l :
  0 < py_count x l ↔ ∃ y, y ∈ l ∧ matches y x = true.
Proof.
  unfold py_count, len. split.
  - intros Hpos.
    destruct (filter (λ y, matches y x = true) l) as [|y l'] eqn:Hf;
      [simpl in Hpos; lia|].
    assert (y ∈ filter (λ y, matches y x = true) l) as Hy by (rewrite Hf; left).
    apply list_elem_of_filter in Hy as [? ?]. by exists y.
  - intros (y & Hin & Hm).
    assert (y ∈ filter (λ y, matches y x = true) l) as Hy
      by by apply list_elem_of_filter.
    destruct (filter (λ y, matches y x = true) l);
      [by apply elem_of_nil in Hy|].
    simpl. lia.
Qed.

Lemma py_contains_true x l :
  py_contains x l = true ↔ ∃ y, y ∈ l ∧ matches y x = true.
Proof.
  unfold py_contains. rewrite existsb_exists.
  split; intros (y & Hin & Hm); exists y; (split; [|done]);
    by apply list_elem_of_In.
Qed.

(** X4: [contains], [count] and [index] agree on whether an item is in
    the list (as the item itself or an element equal to it): [contains]
    says yes exactly when [count] is positive, and exactly then [index]
    (with its default bounds) finds a position and does not fail.  Where
    only the item itself matches the item, [contains] says yes exactly
    when the item is an element of the list, and the position [index]
    finds holds the item. *)
Theorem membership_agrees item s :
  _lock s = false →
  ∃ (b : bool) (n : Z),
    contains item s = Returned b (after_lock s)
    ∧ count item s = Returned n (after_lock s)
    ∧ (b = true ↔ ∃ y, y ∈ items_of s ∧ matches y item = true)
    ∧ (b = true ↔ 0 < n)
    ∧ (b = true ↔ ∃ i, index item 0 None s = Returned i (after_lock s)
                       ∧ holds_match (items_of s) (Z.to_nat i) item)
    ∧ (b = false ↔ index item 0 None s = Raised AsyncioListError (after_lock s))
    ∧ ((∀ y, matches y item = true ↔ y = item) →
       (b = true ↔ item ∈ items_of s)
       ∧ (b = true ↔ ∃ i, index item 0 None s = Returned i (after_lock s)
                          ∧ items_of s !! Z.to_nat i = Some item)).
Proof.
  intros Hlock. exists (py_contains item (items_of s)),
                       (py_count item (items_of s)).
  assert (py_contains item (items_of s) = true
          ↔ ∃ i, index item 0 None s = Returned i (after_lock s)
                 ∧ holds_match (items_of s) (Z.to_nat i) item) as Hindex.
  { rewrite index_eq, py_index_whole, py_contains_true by done. split.
    - intros Hin. destruct (first_match item _ Hin) as (k0 & Hk0 & Hfirst).
      exists (Z.of_nat k0).
      rewrite (index_from_first item _ k0 0 Hk0 Hfirst). simpl.
      by rewrite Nat2Z.id.
    - intros (i & _ & Hi). by eapply holds_match_elem. }
  split_and!; try done.
  - by apply contains_eq.
  - by apply count_eq.
  - apply py_contains_true.
  - rewrite py_contains_true. symmetry. apply py_count_pos.
  - rewrite index_eq, py_index_whole by done.
    rewrite <- not_true_iff_false, py_contains_true.
    rewrite <- index_from_None_iff with (i := 0).
    destruct (index_from item (items_of s) 0); split; done.
  - intros Hlawful. split.
    + rewrite py_contains_true. split.
      * intros (y & Hin & Hm). apply Hlawful in Hm. by subst.
      * intros Hin. exists item. split; [done|]. by apply Hlawful.
    + rewrite Hindex. split; intros (i & Hi & Hm); exists i;
        (split; [done|]); by apply (holds_match_lookup item _ _ Hlawful).
Qed.

(** X5: [slice] with step 0 fails with a plain [ValueError], which is not
    one of the container's errors; with step 1 between two positions it
    hands back the stretch between them, and from 0 to the length the
    whole list; in each case the container is as it was. *)
Theorem slice_behaviour s :
  _lock s = false →
  (∀ start stop,
     slice start stop 0 s = Raised ValueError (after_lock s)
     ∧ isinstance ValueError AsyncioListError = false)
  ∧ (∀ start stop,
       0 ≤ start ≤ stop → stop ≤ len (items_of s) →
       slice start stop 1 s
       = Returned (take (Z.to_nat (stop - start))
                        (drop (Z.to_nat start) (items_of s)))
                  (after_lock s))
  ∧ slice 0 (len (items_of s)) 1 s = Returned (items_of s) (after_lock s).
Proof.
  intros Hlock. split_and!.
  - intros start stop. by rewrite slice_eq.
  - intros start stop Hr Hstop.
    by rewrite slice_eq, py_slice_contiguous.
  - rewrite slice_eq, py_slice_contiguous by (pose proof (len_nonneg (items_of s)); lia || done).
    rewrite Z.sub_0_r. unfold len. rewrite Nat2Z.id. simpl.
    by rewrite drop_0, firstn_all.
Qed.

(** X6: [sort] hands back the container with the same elements
    rearranged and the event set; when the comparison is a strict order
    whose complement is transitive, they are in ascending order, or in
    descending order with [reverse=True]. *)
Theorem sort_sorted_permutation kwargs s :
  _lock s = false →
  ∃ s', sort kwargs s = Returned PySelf s'
        ∧ items_of s' ≡ₚ items_of s
        ∧ _change_event s' = true
        ∧ ((∀ a b, key_lt kwargs a b = true → key_lt kwargs b a = false) →
           (∀ a b d, key_lt kwargs b a = false → key_lt kwargs d b = false →
                     key_lt kwargs d a = false) →
           if reverse_flag kwargs
           then StronglySorted (flip (may_precede (key_lt kwargs)))
                               (items_of s')
           else StronglySorted (may_precede (key_lt kwargs)) (items_of s')).
Proof.
  intros Hlock.
  destruct (sort_returns kwargs s Hlock) as (s' & Hrun & Hitems & Hev & _).
  exists s'. rewrite Hitems. split_and!; [done|apply py_sort_perm|done|].
  intros Hasym Htrans. by apply py_sort_sorted.
Qed.

(** *** Methods one after the other *)

(** X7: after [insert(index, item)] with [0 <= index <= n], [get(index)]
    hands back the item. *)
Theorem insert_then_get index item s :
  _lock s = false →
  0 ≤ index ≤ len (items_of s) →
  ∃ s', (insert index item ;; get index) s = Returned item s'
        ∧ items_of s' = take (Z.to_nat index) (items_of s)
                        ++ item :: drop (Z.to_nat index) (items_of s).
Proof.
  intros Hlock Hr.
  destruct (insert_returns index item s Hlock)
    as (s1 & Hrun & Hitems & _ & Hlock1).
  { apply as_ssize_t_within. lia. }
  unfold_monad. rewrite Hrun, get_eq by done.
  rewrite Hitems. unfold len at 1. rewrite ins1_length.
  destruct (Z.ltb_spec index 0); [lia|].
  destruct (Z.leb_spec (Z.of_nat (S (length (items_of s)))) index);
    [unfold len in Hr; lia|]. simpl.
  rewrite ins1_lookup by done.
  eexists. split; [done|].
  rewrite items_of_after_lock, Hitems. by apply ins1_in_range.
Qed.

(** X8: [pop()] right after [append(item)] hands the item back and the
    list holds what it held before. *)
Theorem append_then_pop item s :
  _lock s = false →
  ∃ s', (append item ;; pop_default) s = Returned item s'
        ∧ items_of s' = items_of s
        ∧ _lock s' = false.
Proof.
  intros Hlock.
  destruct (append_returns item s Hlock) as (s1 & Hrun & Hitems & _ & Hlock1).
  destruct (pop_default_last s1 (items_of s) item Hlock1 Hitems)
    as (s2 & Hpop & Hitems2 & _ & Hlock2).
  exists s2. unfold_monad. by rewrite Hrun, Hpop.
Qed.

(** X9: reversing twice gives the list back, in the same list object. *)
Theorem reverse_twice s :
  _lock s = false →
  ∃ s', (reverse_ ;; reverse_) s = Returned PySelf s'
        ∧ items_of s' = items_of s
        ∧ _change_event s' = true
        ∧ _lock s' = false.
Proof.
  intros Hlock.
  destruct (reverse_returns s Hlock) as (s1 & Hrun1 & Hitems1 & _ & Hlock1).
  destruct (reverse_returns s1 Hlock1) as (s2 & Hrun2 & Hitems2 & Hev & Hlock2).
  exists s2. unfold_monad. rewrite Hrun1, Hrun2.
  split_and!; try done. by rewrite Hitems2, Hitems1, reverse_involutive.
Qed.

(** X10: [is_empty] says true exactly when the list has no element, and
    so it does, with [length] at 0, right after [clear]. *)
Theorem clear_then_empty s :
  _lock s = false →
  (∃ b, is_empty s = Returned b (after_lock s)
        ∧ (b = true ↔ items_of s = []))
  ∧ (∃ s', (clear ;; is_empty) s = Returned true s' ∧ items_of s' = [])
  ∧ (∃ s', (clear ;; length_) s = Returned 0 s' ∧ items_of s' = []).
Proof.
  intros Hlock. split_and!.
  - rewrite is_empty_eq by done. eexists. split; [done|].
    unfold len. rewrite Z.eqb_eq. destruct (items_of s); simpl; [done|].
    split; [lia|done].
  - destruct (clear_returns s Hlock) as (s1 & Hrun & Hitems & _ & Hlock1).
    unfold_monad. rewrite Hrun. fold (is_empty s1).
    rewrite is_empty_eq, Hitems by done. by eexists.
  - destruct (clear_returns s Hlock) as (s1 & Hrun & Hitems & _ & Hlock1).
    unfold_monad. rewrite Hrun, length_eq, Hitems by done. by eexists.
Qed.

(** X11: the synchronous [__len__] does not use the lock: it answers at
    once, also while the lock is held, with the number of elements and
    the state untouched; [length] gives the same number when the lock
    is free and stays suspended while it is held. *)
Theorem len_without_lock s :
  __len__ s = Returned (len (items_of s)) s
  ∧ (_lock s = false →
     length_ s = Returned (len (items_of s)) (after_lock s))
  ∧ (_lock s = true → length_ s = Blocked).
Proof.
  split_and!.
  - done.
  - apply length_eq.
  - intros Hlock. unfold length_. by run_method Hlock.
Qed.

(** *** The lock *)

Lemma run_lock_free c s : _lock s = false → _lock (run c s) = false.
Proof.
  intros Hlock. pose proof (exec_lock_free c s Hlock) as Hc. unfold run.
  destruct (exec c s) as [v s'|e s'|]; simpl; [done| |done].
  by destruct Hc as [-> _].
Qed.

Lemma run_all_lock_free cs : ∀ s,
  _lock s = false → _lock (run_all cs s) = false.
Proof.
  induction cs as [|c cs IH]; intros s Hlock; simpl; [done|].
  by apply IH, run_lock_free.
Qed.

(** X12: used through its methods only, the container never keeps the
    lock: after any sequence of calls, returned or failed, the lock is
    free, and whatever call comes next does not stay suspended. *)
Theorem lock_always_released cs s :
  _lock s = false →
  _lock (run_all cs s) = false
  ∧ ∀ c, exec c (run_all cs s) ≠ Blocked.
Proof.
  intros Hlock. pose proof (run_all_lock_free cs s Hlock) as Hfree.
  split; [done|]. intros c Hblocked.
  pose proof (exec_lock_free c _ Hfree) as Hc. by rewrite Hblocked in Hc.
Qed.

(** X13: while the lock is held, every call that takes it stays
    suspended and has done nothing; so a method of the container called
    inside its own [async with lst:] block never comes back, the lock
    not being reentrant. *)
Theorem locking_calls_block c s :
  takes_lock c = true →
  (_lock s = true → exec c s = Blocked ∧ run c s = s)
  ∧ (_lock s = false → async_with_self (exec c) s = Blocked).
Proof.
  intros Htakes. split.
  - intros Hlock. unfold run. by rewrite exec_blocked.
  - intros Hlock. unfold async_with_self, __aenter__, try_finally.
    run_method Hlock. by rewrite exec_blocked.
Qed.

(** X14: [__aexit__] without the lock held fails with [RuntimeError]
    before it sets the event, the state as it was; [__aenter__] waits
    while the lock is held; and [__aenter__] followed by [__aexit__]
    leaves the lists as they were, the lock free and the event set. *)
Theorem aexit_needs_lock s :
  (_lock s = false → __aexit__ s = Raised RuntimeError s)
  ∧ (_lock s = true → __aenter__ s = Blocked)
  ∧ (_lock s = false →
     ∃ s', (__aenter__ ;; __aexit__) s = Returned PyNone s'
           ∧ heap s' = heap s ∧ _items s' = _items s
           ∧ _lock s' = false ∧ _change_event s' = true).
Proof.
  split_and!; intros Hlock; unfold __aenter__, __aexit__; run_method Hlock;
    [done|done|].
  eexists. split; [reflexivity|done].
Qed.

Lemma exec_locked_not_raised c s e s' :
  _lock s = true → exec c s ≠ Raised e s'.
Proof.
  intros Hlock. destruct (takes_lock c) eqn:Htakes.
  - by rewrite exec_blocked.
  - by destruct c as [| [|x items] | | | | | | | | | | | | | | | |].
Qed.

(** X15: a call that raises has changed nothing: the lists, the
    attribute [_items] and the event are as before, the lock is free
    again, and the only calls made were taking and releasing the lock.
    (Comparing two elements is taken not to raise.) *)
Theorem failed_call_changes_nothing c s e s' :
  exec c s = Raised e s' →
  heap s' = heap s ∧ _items s' = _items s
  ∧ _change_event s' = _change_event s
  ∧ _lock s' = false
  ∧ calls s' = calls s ++ [LockAcquire; LockRelease].
Proof.
  intros Hexec. destruct (_lock s) eqn:Hlock.
  { by apply exec_locked_not_raised in Hexec. }
  pose proof (exec_lock_free c s Hlock) as Hc. rewrite Hexec in Hc.
  destruct Hc as [-> _]. simpl. split_and!; try done.
  by rewrite <- app_assoc.
Qed.


(** X17: a read-only call, whether it returns or raises, leaves the
    state as it was but for having taken and released the lock. *)
Theorem read_only_call_state c s :
  read_only c = true →
  _lock s = false →
  run c s = if takes_lock c then after_lock s else s.
Proof.
  intros Hro Hlock. unfold run. destruct c; try done; simpl; unfold_monad.
  - rewrite get_eq by done.
    destruct ((index0 <? 0) || (len (items_of s) <=? index0)); [done|].
    by destruct (items_of s !! Z.to_nat index0).
  - by rewrite length_eq.
  - by rewrite count_eq.
  - by rewrite contains_eq.
  - rewrite index_eq by done.
    by destruct (py_index item start end_ (items_of s)).
  - rewrite slice_eq by done.
    by destruct (py_slice start stop step (items_of s)).
  - by rewrite is_empty_eq.
Qed.

(** *** The list object behind the container *)

Lemma same_list_object_preorder : PreOrder (@same_list_object T).
Proof.
  split.
  - intros s. done.
  - intros s1 s2 s3 H12 H23. unfold same_list_object in *. congruence.
Qed.

Lemma same_list_lock_acquire : respects same_list_object (@lock_acquire T).
Proof. intros s. unfold lock_acquire. by destruct (_lock s). Qed.

Lemma same_list_lock_release : respects same_list_object (@lock_release T).
Proof. intros s. unfold lock_release. by destruct (_lock s). Qed.

Lemma same_list_event_set : respects same_list_object (@event_set T).
Proof. by intros s. Qed.

Lemma same_list_event_is_set : respects same_list_object (@event_is_set T).
Proof. by intros s. Qed.

Lemma same_list_get_items : respects same_list_object (@get_items T).
Proof. by intros s. Qed.

Lemma same_list_put_items l : respects same_list_object (put_items l).
Proof. by intros s. Qed.

End method_equations.

#[export] Hint Resolve
  same_list_lock_acquire same_list_lock_release same_list_event_set
  same_list_event_is_set same_list_get_items same_list_put_items : respects.

Section usage.
Context {T : Type} `{EqDecision T} `{PyCompare T}.
Implicit Types (s : state T) (l : list T) (x item : T) (c : call T).

#[local] Existing Instance same_list_object_preorder.

Lemma exec_same_list_object c :
  (∀ item, c ≠ CallDeleteAll item) →
  respects same_list_object (exec c).
Proof.
  intros Hc. destruct c; try (by destruct (Hc item)); respects_method.
Qed.

(** X18: [delete_all] does not change the list in place: it leaves the
    old list object as it was and makes [_items] refer to a new one; every
    other call keeps [_items] on the same list object. *)
Theorem delete_all_rebinds :
  (∀ item s,
     _lock s = false →
     ∃ s', delete_all item s = Returned PyNone s'
           ∧ _items s' ≠ _items s
           ∧ heap s' !! _items s = heap s !! _items s)
  ∧ (∀ c s, (∀ item, c ≠ CallDeleteAll item) → _items (run c s) = _items s).
Proof.
  split.
  - intros item s Hlock. unfold delete_all. run_method Hlock.
    destruct (fresh_list_address s) as [_ Hfresh].
    eexists. split; [reflexivity|]. simpl. split; [done|].
    by rewrite lookup_insert_ne.
  - intros c s Hc. apply (exec_same_list_object c Hc s).
Qed.

(** *** The callers in [example/] *)

Lemma py_pop_front x l : py_pop 0 (x :: l) = Popped x l.
Proof.
  destruct (py_pop_valid 0 (x :: l)) as (y & Hy & ->).
  { unfold len. simpl. lia. }
  unfold pop_position in *. simpl in *. by injection Hy as <-.
Qed.

Lemma process_available_drains l : ∀ fuel s,
  _lock s = false →
  items_of s = l →
  (length l < fuel)%nat →
  ∃ s', process_available fuel s = Returned (Some l) s'
        ∧ items_of s' = []
        ∧ _lock s' = false.
Proof.
  induction l as [|x l IH]; intros fuel s Hlock Hitems Hfuel;
    (destruct fuel as [|fuel]; [simpl in Hfuel; lia|]);
    simpl; unfold_monad; fold (is_empty s);
    rewrite is_empty_eq, Hitems by done; simpl.
  - eexists. split; [done|]. by rewrite items_of_after_lock.
  - destruct (pop_returns 0 (after_lock s) x l) as (s1 & -> & Hitems1 & _ & ?);
      [done|by rewrite items_of_after_lock, Hitems, py_pop_front|].
    rewrite length_eq by done.
    destruct (IH fuel (after_lock s1)) as (s2 & Hrun & ? & ?);
      [done|by rewrite items_of_after_lock|simpl in *; lia|].
    unfold_monad. rewrite Hrun. simpl. by exists s2.
Qed.

(** X19: the consumer's inner loop, left alone, takes the elements out
    from the front, one per round, in the order they stand in the list,
    and ends with the list empty and the lock free, after one round more
    than there were elements. *)
Theorem process_available_fifo fuel s :
  _lock s = false →
  (length (items_of s) < fuel)%nat →
  ∃ s', process_available fuel s = Returned (Some (items_of s)) s'
        ∧ items_of s' = []
        ∧ _lock s' = false.
Proof. intros Hlock Hfuel. by apply process_available_drains. Qed.

(** X20: the producer's batch step adds the batch at the end and sets
    the event, as [extend] does with the same list; with an empty batch
    it still sets the event, where [extend] does nothing at all. *)
Theorem add_batch_like_extend batch s :
  _lock s = false →
  ∃ s1, add_batch batch s = Returned () s1
        ∧ items_of s1 = items_of s ++ batch
        ∧ _change_event s1 = true
        ∧ _lock s1 = false
        ∧ (batch ≠ [] →
           ∃ s2, extend batch s = Returned PyNone s2
                 ∧ heap s2 = heap s1 ∧ _items s2 = _items s1
                 ∧ _change_event s2 = _change_event s1)
        ∧ (batch = [] →
           items_of s1 = items_of s ∧ extend batch s = Returned PyNone s).
Proof.
  intros Hlock. unfold add_batch, async_with_self, __aenter__, __aexit__,
    raw_update. run_method Hlock.
  eexists. split; [reflexivity|]. simpl. split_and!; try done.
  - by rewrite items_of_put.
  - intros Hne. destruct batch as [|x batch]; [done|].
    unfold extend. run_method Hlock. eexists. split; [reflexivity|]. done.
  - intros ->. by rewrite items_of_put, app_nil_r.
Qed.

Lemma run_append item s :
  _lock s = false →
  items_of (run (CallAppend item) s) = items_of s ++ [item]
  ∧ _change_event (run (CallAppend item) s) = true
  ∧ _lock (run (CallAppend item) s) = false.
Proof.
  intros Hlock.
  destruct (append_returns item s Hlock) as (s1 & Hrun & ? & ? & ?).
  unfold run. simpl. unfold_monad. by rewrite Hrun.
Qed.

Lemma run_all_appends (xs : list T) : ∀ s,
  _lock s = false →
  items_of (run_all (CallAppend <$> xs) s) = items_of s ++ xs
  ∧ _lock (run_all (CallAppend <$> xs) s) = false
  ∧ (xs ≠ [] → _change_event (run_all (CallAppend <$> xs) s) = true).
Proof.
  induction xs as [|x xs IH]; intros s Hlock.
  - simpl. by rewrite app_nil_r.
  - destruct (run_append x s Hlock) as (Hitems1 & Hev1 & Hlock1).
    destruct (IH _ Hlock1) as (Hitems & Hfree & Hev).
    rewrite fmap_cons.
    change (run_all (CallAppend x :: (CallAppend <$> xs)) s)
      with (run_all (CallAppend <$> xs) (run (CallAppend x) s)).
    split_and!; [|done|].
    + by rewrite Hitems, Hitems1, <- app_assoc.
    + intros _. destruct xs as [|y xs]; [done|]. by apply Hev.
Qed.

(** X21: elements appended one call at a time, in whatever order the
    calls got the lock, stand at the end of the list in that order; the
    list and the event are then the same as after one [extend] with all
    of them. *)
Theorem appends_like_extend (xs : list T) s :
  _lock s = false →
  items_of (run_all (CallAppend <$> xs) s) = items_of s ++ xs
  ∧ (xs ≠ [] →
     ∃ s', extend xs s = Returned PyNone s'
           ∧ items_of (run_all (CallAppend <$> xs) s) = items_of s'
           ∧ _change_event (run_all (CallAppend <$> xs) s) = _change_event s').
Proof.
  intros Hlock. destruct (run_all_appends xs s Hlock) as (Hitems & _ & Hev).
  split; [done|]. intros Hne.
  destruct (extend_nonempty xs s Hne Hlock) as (s' & Hrun & Hs' & Hev' & _).
  exists s'. by rewrite Hitems, Hs', Hev', Hev.
Qed.

(** *** More methods one after the other *)

(** X22: a change made before the wait is not lost when the wait has
    no timeout: after a mutating call that returned, [wait_for_change()]
    answers true at once, whatever the other tasks are about to do, and
    clears the event; with a positive timeout it does the same where the
    wait is awaited as it is (Python 3.12 on: no activity comes before
    the test of the event or before the answer). *)
Theorem wait_after_mutation c s v s1 :
  mutating c = true →
  exec c s = Returned v s1 →
  (∀ start lag env,
     wait_for_change None start lag env s1 = Returned true (cleared s1))
  ∧ (∀ t env,
       wait_for_change (Some (S t)) 0 0 env s1 = Returned true (cleared s1)).
Proof.
  intros Hmut Hexec.
  pose proof (exec_mutating c s v s1 Hmut Hexec) as Hev.
  split.
  - intros start lag env. rewrite wait_for_change_unfold. unfold wait_for.
    by rewrite Hev.
  - intros t env. rewrite wait_for_change_unfold. unfold wait_for.
    rewrite drop_0. by destruct env; simpl; rewrite Hev.
Qed.

(** X23: a container made from a list and then iterated gives the
    elements of that list, in order. *)
Theorem init_then_iterate (h : gmap loc (list T)) q l sched :
  h !! q = Some l →
  (length l < length sched)%nat →
  ∃ s s', __init__ h (ObjList q) = Constructed s
          ∧ async_for sched __aiter__ s = (l, AGenClosed, s').
Proof.
  intros Hq Hlen. unfold __init__. simpl. rewrite Hq. simpl.
  eexists. 
  match goal with
  | |- ∃ s', Constructed ?s0 = _ ∧ _ =>
      destruct (async_for_snapshot sched s0 eq_refl) as (g' & s' & Hrun & Hcl)
  end.
  rewrite items_of_new in Hrun, Hcl.
  exists s'. split; [reflexivity|].
  rewrite Hrun, (Hcl Hlen), take_ge by lia. done.
Qed.

(** X24: [insert] at the length of the list, or anywhere past it up to
    the largest [Py_ssize_t], does to the list what [append] does; past
    that it fails with [OverflowError] and does nothing. *)
Theorem insert_past_end_is_append index item s :
  _lock s = false →
  len (items_of s) ≤ index →
  (fits_ssize_t index = true →
     ∃ s1 s2, insert index item s = Returned PyNone s1
              ∧ append item s = Returned PySelf s2
              ∧ items_of s1 = items_of s ++ [item]
              ∧ items_of s2 = items_of s ++ [item]
              ∧ _items s1 = _items s2)
  ∧ (len (items_of s) < index → fits_ssize_t index = false →
     insert index item s = Raised OverflowError (after_lock s)).
Proof.
  intros Hlock Hr. split.
  - intros Hfit.
    destruct (insert_returns index item s Hlock)
      as (s1 & Hrun1 & Hitems1 & _); [by apply as_ssize_t_fits|].
    destruct (append_returns item s Hlock) as (s2 & Hrun2 & Hitems2 & _).
    exists s1, s2. split_and!; try done.
    + by rewrite Hitems1, ins1_past_end.
    + assert (same_list_object s (run (CallInsert index item) s)) as H1.
      { apply (exec_same_list_object (CallInsert index item)). done. }
      assert (same_list_object s (run (CallAppend item) s)) as H2.
      { apply (exec_same_list_object (CallAppend item)). done. }
      unfold run in H1, H2. simpl in H1, H2. unfold_monad.
      rewrite Hrun1 in H1. rewrite Hrun2 in H2. simpl in *.
      unfold same_list_object in *. congruence.
  - intros Hlt Hfit. apply insert_overflow; [done|].
    unfold as_ssize_t. rewrite Hfit. simpl.
    destruct (Z.leb_spec index (len (items_of s))); [lia|].
    by rewrite andb_false_r.
Qed.

Lemma py_count_none item l :
  (∀ y, y ∈ l → matches y item = false) → py_count item l = 0.
Proof.
  intros Hnone. unfold py_count, len.
  assert (filter (λ y, matches y item = true) l = []) as ->; [|done].
  induction l as [|y l IH]; [done|].
  rewrite filter_cons_False.
  - apply IH. intros z Hz. apply Hnone. by right.
  - rewrite (Hnone y) by left. done.
Qed.

(** X25: where an element that differs from [v] ([!=]) neither is [v]
    nor equals it, the container holds no [v] after [delete_all(v)]:
    [contains(v)] says false, [count(v)] says 0 and [remove(v)] fails. *)
Theorem delete_all_then_absent v s :
  _lock s = false →
  (∀ y, y ∈ items_of s → py_ne y v = true → matches y v = false) →
  ∃ s1, delete_all v s = Returned PyNone s1
        ∧ contains v s1 = Returned false (after_lock s1)
        ∧ count v s1 = Returned 0 (after_lock s1)
        ∧ remove v s1 = Raised AsyncioListError (after_lock s1).
Proof.
  intros Hlock Hne.
  destruct (delete_all_returns v s Hlock) as (s1 & Hrun & Hitems & _ & Hlock1).
  assert (∀ y, y ∈ items_of s1 → matches y v = false) as Hnone.
  { rewrite Hitems. intros y Hin.
    apply list_elem_of_filter in Hin as [? ?]. by apply Hne. }
  exists s1. rewrite contains_eq, count_eq by done. split_and!.
  - done.
  - f_equal. apply not_true_iff_false. rewrite py_contains_true.
    intros (y & Hy & Hm). by rewrite (Hnone y Hy) in Hm.
  - by rewrite py_count_none.
  - apply remove_raises_eq; [done|]. by apply py_remove_absent.
Qed.

(** *** pop and insert at any index *)

(** X26: on a non-empty list [pop()] removes the last element and hands
    it back, the event set; as many [pop()]s as the list is long hand
    back its elements last to first and leave it empty; on the empty
    list [pop()] fails with [IndexOutOfBoundsError]. *)
Theorem pop_default_drains s :
  _lock s = false →
  (∀ l x, items_of s = l ++ [x] →
     ∃ s', pop_default s = Returned x s'
           ∧ items_of s' = l ∧ _change_event s' = true)
  ∧ (∃ s', drain (length (items_of s)) s = (reverse (items_of s), s')
           ∧ items_of s' = [])
  ∧ (items_of s = [] →
     pop_default s = Raised IndexOutOfBoundsError (after_lock s)).
Proof.
  intros Hlock. split_and!.
  - intros l x Hitems.
    destruct (pop_default_last s l x Hlock Hitems) as (s' & ? & ? & ? & _).
    by exists s'.
  - destruct (drain_all (items_of s) s Hlock eq_refl) as (s' & ? & ? & _).
    by exists s'.
  - intros Hitems. apply pop_raises_eq; [done|]. by rewrite Hitems.
Qed.

(** X27: [pop(index)] hands back an element exactly when
    [-n <= index < n]: the one at [index], or at [index + n] when
    [index] is negative, and the list is then without it.  At any other
    index the list is as before; [pop] fails with
    [IndexOutOfBoundsError] when the index is a [Py_ssize_t] and with
    the bare [OverflowError] when it is not. *)
Theorem pop_index_law index s :
  _lock s = false →
  (- len (items_of s) ≤ index < len (items_of s) →
     ∃ x s',
       items_of s !! Z.to_nat (if index <? 0 then index + len (items_of s)
                               else index) = Some x
       ∧ pop index s = Returned x s'
       ∧ items_of s'
         = delete (Z.to_nat (if index <? 0 then index + len (items_of s)
                             else index)) (items_of s)
       ∧ _change_event s' = true)
  ∧ (¬ (- len (items_of s) ≤ index < len (items_of s)) →
     (fits_ssize_t index = true →
        pop index s = Raised IndexOutOfBoundsError (after_lock s))
     ∧ (fits_ssize_t index = false → index ≠ len (items_of s) →
        pop index s = Raised OverflowError (after_lock s)))
  ∧ (∀ x s', pop index s = Returned x s' →
       - len (items_of s) ≤ index < len (items_of s)).
Proof.
  intros Hlock. split_and!.
  - intros Hr.
    destruct (py_pop_valid index (items_of s) Hr) as (x & Hx & Hpop).
    destruct (pop_returns index s _ _ Hlock Hpop) as (s' & ? & ? & ? & _).
    exists x, s'. done.
  - intros Hr. split.
    + intros Hfit. apply pop_raises_eq; [done|].
      apply py_pop_invalid; [lia|by apply as_ssize_t_fits].
    + intros Hfit Hne. apply pop_overflow; [done|]. apply py_pop_overflow.
      unfold as_ssize_t. rewrite Hfit. simpl.
      destruct (Z.leb_spec (- len (items_of s)) index); [|done].
      destruct (Z.leb_spec index (len (items_of s))); [lia|done].
  - intros x s' Hrun.
    destruct (py_pop index (items_of s)) as [y l'| |] eqn:Hpop.
    + by eapply py_pop_Popped.
    + by rewrite pop_raises_eq in Hrun.
    + by rewrite pop_overflow in Hrun.
Qed.

(** X28: [insert] never fails with [IndexOutOfBoundsError]: with an
    index that is a [Py_ssize_t] it returns, the item placed where
    [list.insert] puts it (a negative index counted from the end, and
    the result clamped to the ends of the list), and the event is set;
    so an index at or before [-n] puts the item first. *)
Theorem insert_clamps index item s :
  _lock s = false →
  (∀ s', insert index item s ≠ Raised IndexOutOfBoundsError s')
  ∧ (fits_ssize_t index = true →
     ∃ s', insert index item s = Returned PyNone s'
           ∧ items_of s'
             = take (Z.to_nat (insert_position (len (items_of s)) index))
                    (items_of s)
               ++ item
               :: drop (Z.to_nat (insert_position (len (items_of s)) index))
                       (items_of s)
           ∧ _change_event s' = true
           ∧ (index ≤ - len (items_of s) → items_of s' = item :: items_of s)
           ∧ (- len (items_of s) ≤ index < 0 →
              items_of s' !! Z.to_nat (index + len (items_of s))
              = Some item)).
Proof.
  intros Hlock. split; [intros s'; apply insert_never_out_of_bounds|].
  intros Hfit.
  destruct (insert_returns index item s Hlock)
    as (s' & Hrun & Hitems & Hev & _); [by apply as_ssize_t_fits|].
  exists s'. split_and!; [done|done|done| |]; rewrite Hitems; unfold ins1.
  - intros Hr. pose proof (len_nonneg (items_of s)).
    assert (insert_position (len (items_of s)) index = 0) as ->; [|done].
    unfold insert_position.
    destruct (Z.ltb_spec index 0);
      [destruct (Z.ltb_spec (index + len (items_of s)) 0)|];
      match goal with
      | |- context [?a <? ?b] => destruct (Z.ltb_spec a b)
      end; lia.
  - intros Hr.
    assert (insert_position (len (items_of s)) index
            = index + len (items_of s)) as ->.
    { unfold insert_position.
      destruct (Z.ltb_spec index 0); [|lia].
      destruct (Z.ltb_spec (index + len (items_of s)) 0); [lia|].
      destruct (Z.ltb_spec (len (items_of s)) (index + len (items_of s)));
        lia. }
    rewrite lookup_app_r; rewrite length_take; unfold len in *; [|lia].
    replace (Z.to_nat (index + Z.of_nat (length (items_of s)))
             - Z.to_nat (index + Z.of_nat (length (items_of s)))
               `min` length (items_of s))%nat with 0%nat by lia.
    done.
Qed.

End usage.

(** ** The same on a container of integers *)

Lemma append_effect_witness :
  ∃ s', append 3 (sample [1; 2]) = Returned PySelf s'
        ∧ items_of s' = [1; 2; 3]
        ∧ _change_event s' = true
        ∧ _lock s' = false
        ∧ calls s' = [LockAcquire; EventSet; LockRelease].
Proof. exact (append_effect 3 (sample [1; 2]) eq_refl). Defined.

Lemma get_bounds_witness :
  (∃ x, [1; 2; 3] !! 1%nat = Some x
        ∧ get 1 (sample [1; 2; 3]) = Returned x (after_lock (sample [1; 2; 3])))
  ∧ get 3 (sample [1; 2; 3])
    = Raised IndexOutOfBoundsError (after_lock (sample [1; 2; 3]))
  ∧ get (-1) (sample [1; 2; 3])
    = Raised IndexOutOfBoundsError (after_lock (sample [1; 2; 3])).
Proof.
  split; [|split].
  - apply (proj1 (get_bounds 1 (sample [1; 2; 3]) eq_refl)).
    unfold len. rewrite items_of_sample. simpl. lia.
  - apply (proj2 (get_bounds 3 (sample [1; 2; 3]) eq_refl)).
    unfold len. rewrite items_of_sample. simpl. lia.
  - apply (proj2 (get_bounds (-1) (sample [1; 2; 3]) eq_refl)). lia.
Defined.

Lemma index_first_in_window_witness :
  index 5 1 (Some 3) (sample [5; 1; 5; 5])
  = Returned 2 (after_lock (sample [5; 1; 5; 5]))
  ∧ index 9 0 None (sample [5; 1; 5; 5])
    = Raised AsyncioListError (after_lock (sample [5; 1; 5; 5]))
  ∧ index 5 (-2) None (sample [5; 1; 5; 5])
    = Returned 2 (after_lock (sample [5; 1; 5; 5])).
Proof.
  split_and!.
  - apply (proj1 (index_first_in_window 5 1 (Some 3) (sample [5; 1; 5; 5])
                    eq_refl) 2).
    + rewrite items_of_sample. vm_compute. split; congruence.
    + by exists 5.
    + rewrite items_of_sample. intros j' Hj'.
      change (index_bound (len [5; 1; 5; 5]) 1) with 1 in Hj'.
      assert (j' = 1) as -> by lia. intros (y & [= <-] & Hy). discriminate.
  - apply (proj1 (proj2 (index_first_in_window 9 0 None (sample [5; 1; 5; 5])
                           eq_refl))).
    rewrite items_of_sample. intros j Hj (y & Hy & Hm).
    apply list_elem_of_lookup_2, list_elem_of_In in Hy. simpl in Hy.
    destruct Hy as [<-|[<-|[<-|[<-|[]]]]]; discriminate.
  - apply (proj1 (proj2 (proj2 (index_first_in_window 5 (-2) None
                                  (sample [5; 1; 5; 5]) eq_refl))
                    (λ y, matches_Z y 5)) 2).
    + rewrite items_of_sample. vm_compute. split; congruence.
    + reflexivity.
    + rewrite items_of_sample. intros j' Hj'.
      change (index_bound (len [5; 1; 5; 5]) (-2)) with 2 in Hj'. lia.
Defined.

Lemma membership_agrees_witness :
  ∃ (b : bool) (n : Z),
    contains 1 (sample [1; 2; 1]) = Returned b (after_lock (sample [1; 2; 1]))
    ∧ count 1 (sample [1; 2; 1]) = Returned n (after_lock (sample [1; 2; 1]))
    ∧ (b = true ↔ 1 ∈ [1; 2; 1])
    ∧ (b = true ↔ 0 < n)
    ∧ (b = true ↔ ∃ i, index 1 0 None (sample [1; 2; 1])
                       = Returned i (after_lock (sample [1; 2; 1]))
                       ∧ [1; 2; 1] !! Z.to_nat i = Some 1)
    ∧ (b = false ↔ index 1 0 None (sample [1; 2; 1])
                   = Raised AsyncioListError (after_lock (sample [1; 2; 1]))).
Proof.
  destruct (membership_agrees 1 (sample [1; 2; 1]) eq_refl)
    as (b & n & Hb & Hn & _ & Hcount & _ & Hfalse & Hlawful).
  destruct (Hlawful (λ y, matches_Z y 1)) as [Hin Hindex].
  exists b, n.
  exact (conj Hb (conj Hn (conj Hin (conj Hcount (conj Hindex Hfalse))))).
Defined.

Lemma slice_behaviour_witness :
  (∀ start stop,
     slice start stop 0 (sample [1; 2; 3; 4])
     = Raised ValueError (after_lock (sample [1; 2; 3; 4]))
     ∧ isinstance ValueError AsyncioListError = false)
  ∧ slice 1 3 1 (sample [1; 2; 3; 4])
    = Returned [2; 3] (after_lock (sample [1; 2; 3; 4]))
  ∧ slice 0 4 1 (sample [1; 2; 3; 4])
    = Returned [1; 2; 3; 4] (after_lock (sample [1; 2; 3; 4])).
Proof.
  destruct (@slice_behaviour Z (sample [1; 2; 3; 4]) eq_refl)
    as (Hzero & Hstretch & Hwhole).
  split; [exact Hzero|]. split; [|exact Hwhole].
  apply (Hstretch 1 3); [lia|].
  unfold len. rewrite items_of_sample. simpl. lia.
Defined.

Lemma sort_sorted_permutation_witness :
  ∃ s', sort (SortKwargs Z.ltb true) (sample [2; 3; 1]) = Returned PySelf s'
        ∧ items_of s' ≡ₚ [2; 3; 1]
        ∧ _change_event s' = true
        ∧ StronglySorted (flip (may_precede Z.ltb)) (items_of s').
Proof.
  destruct (sort_sorted_permutation (SortKwargs Z.ltb true) (sample [2; 3; 1])
              eq_refl) as (s' & Hrun & Hperm & Hev & Hsorted).
  exists s'. split; [exact Hrun|]. split; [exact Hperm|]. split; [exact Hev|].
  apply Hsorted; simpl.
  - intros a b Hab. apply Z.ltb_lt in Hab. apply Z.ltb_ge. lia.
  - intros a b d Hba Hdb. apply Z.ltb_ge in Hba, Hdb. apply Z.ltb_ge. lia.
Defined.

Lemma insert_then_get_witness :
  ∃ s', (insert 1 9 ;; get 1) (sample [1; 2; 3]) = Returned 9 s'
        ∧ items_of s' = [1; 9; 2; 3].
Proof.
  apply (insert_then_get 1 9 (sample [1; 2; 3]) eq_refl).
  unfold len. rewrite items_of_sample. simpl. lia.
Defined.

Lemma append_then_pop_witness :
  ∃ s', (append 9 ;; pop_default) (sample [1; 2]) = Returned 9 s'
        ∧ items_of s' = [1; 2]
        ∧ _lock s' = false.
Proof. exact (append_then_pop 9 (sample [1; 2]) eq_refl). Defined.

Lemma reverse_twice_witness :
  ∃ s', (reverse_ ;; reverse_) (sample [1; 2; 3]) = Returned PySelf s'
        ∧ items_of s' = [1; 2; 3]
        ∧ _change_event s' = true
        ∧ _lock s' = false.
Proof. exact (reverse_twice (sample [1; 2; 3]) eq_refl). Defined.

Lemma clear_then_empty_witness :
  (∃ b, is_empty (sample [1; 2]) = Returned b (after_lock (sample [1; 2]))
        ∧ (b = true ↔ [1; 2] = []))
  ∧ (∃ s', (clear ;; is_empty) (sample [1; 2]) = Returned true s'
           ∧ items_of s' = [])
  ∧ (∃ s', (clear ;; length_) (sample [1; 2]) = Returned 0 s'
           ∧ items_of s' = []).
Proof. exact (clear_then_empty (sample [1; 2]) eq_refl). Defined.

Lemma len_without_lock_witness :
  length_ (sample [1; 2]) = Returned 2 (after_lock (sample [1; 2]))
  ∧ length_ (sample_locked [1; 2]) = Blocked
  ∧ __len__ (sample_locked [1; 2]) = Returned 2 (sample_locked [1; 2]).
Proof.
  split; [|split].
  - exact (proj1 (proj2 (len_without_lock (sample [1; 2]))) eq_refl).
  - exact (proj2 (proj2 (len_without_lock (sample_locked [1; 2]))) eq_refl).
  - exact (proj1 (len_without_lock (sample_locked [1; 2]))).
Defined.

Lemma lock_always_released_witness :
  _lock (run_all [CallRemove 7; CallPop 5; CallAppend 3] (sample [1; 2]))
  = false
  ∧ ∀ c, exec c (run_all [CallRemove 7; CallPop 5; CallAppend 3]
                         (sample [1; 2])) ≠ Blocked.
Proof.
  exact (lock_always_released [CallRemove 7; CallPop 5; CallAppend 3]
           (sample [1; 2]) eq_refl).
Defined.

Lemma locking_calls_block_witness :
  (exec (CallAppend 3) (sample_locked [1; 2]) = Blocked
   ∧ run (CallAppend 3) (sample_locked [1; 2]) = sample_locked [1; 2])
  ∧ async_with_self (exec (CallAppend 3)) (sample [1; 2]) = Blocked.
Proof.
  split.
  - exact (proj1 (locking_calls_block (CallAppend 3) (sample_locked [1; 2])
                    eq_refl) eq_refl).
  - exact (proj2 (locking_calls_block (CallAppend 3) (sample [1; 2])
                    eq_refl) eq_refl).
Defined.

Lemma aexit_needs_lock_witness :
  __aexit__ (sample [1; 2]) = Raised RuntimeError (sample [1; 2])
  ∧ __aenter__ (sample_locked [1; 2]) = Blocked
  ∧ (∃ s', (__aenter__ ;; __aexit__) (sample [1; 2]) = Returned PyNone s'
           ∧ heap s' = heap (sample [1; 2])
           ∧ _items s' = _items (sample [1; 2])
           ∧ _lock s' = false ∧ _change_event s' = true).
Proof.
  split; [|split].
  - exact (proj1 (@aexit_needs_lock Z (sample [1; 2])) eq_refl).
  - exact (proj1 (proj2 (@aexit_needs_lock Z (sample_locked [1; 2]))) eq_refl).
  - exact (proj2 (proj2 (@aexit_needs_lock Z (sample [1; 2]))) eq_refl).
Defined.


Lemma failed_call_changes_nothing_witness :
  exec (CallRemove 7) (sample [1; 2])
  = Raised AsyncioListError (after_lock (sample [1; 2]))
  ∧ heap (after_lock (sample [1; 2])) = heap (sample [1; 2])
  ∧ _items (after_lock (sample [1; 2])) = _items (sample [1; 2])
  ∧ _change_event (after_lock (sample [1; 2])) = false
  ∧ _lock (after_lock (sample [1; 2])) = false
  ∧ calls (after_lock (sample [1; 2])) = [LockAcquire; LockRelease].
Proof.
  split; [reflexivity|].
  exact (failed_call_changes_nothing (CallRemove 7) (sample [1; 2])
           AsyncioListError (after_lock (sample [1; 2])) eq_refl).
Defined.


Lemma read_only_call_state_witness :
  run (CallIndex 9 0 None) (sample [1; 2]) = after_lock (sample [1; 2])
  ∧ run CallLen (sample [1; 2]) = sample [1; 2].
Proof.
  split.
  - exact (read_only_call_state (CallIndex 9 0 None) (sample [1; 2])
             eq_refl eq_refl).
  - exact (read_only_call_state CallLen (sample [1; 2]) eq_refl eq_refl).
Defined.

Lemma delete_all_rebinds_witness :
  (∃ s', delete_all 1 (sample [1; 2; 1]) = Returned PyNone s'
         ∧ _items s' ≠ 1%positive
         ∧ heap s' !! 1%positive = Some [1; 2; 1])
  ∧ _items (run CallClear (sample [1; 2; 1])) = 1%positive.
Proof.
  split.
  - exact (proj1 (@delete_all_rebinds Z _ _) 1 (sample [1; 2; 1]) eq_refl).
  - apply (proj2 (@delete_all_rebinds Z _ _) CallClear (sample [1; 2; 1])).
    intros item. discriminate.
Defined.

Lemma process_available_fifo_witness :
  ∃ s', process_available 4 (sample [1; 2; 3]) = Returned (Some [1; 2; 3]) s'
        ∧ items_of s' = []
        ∧ _lock s' = false.
Proof.
  apply (process_available_fifo 4 (sample [1; 2; 3]) eq_refl).
  rewrite items_of_sample. simpl. lia.
Defined.

Lemma add_batch_like_extend_witness :
  ∃ s1, add_batch [3; 4] (sample [1; 2]) = Returned () s1
        ∧ items_of s1 = [1; 2; 3; 4]
        ∧ _change_event s1 = true
        ∧ _lock s1 = false
        ∧ ([3; 4] ≠ [] →
           ∃ s2, extend [3; 4] (sample [1; 2]) = Returned PyNone s2
                 ∧ heap s2 = heap s1 ∧ _items s2 = _items s1
                 ∧ _change_event s2 = _change_event s1)
        ∧ ([3; 4] = [] →
           items_of s1 = [1; 2]
           ∧ extend [3; 4] (sample [1; 2]) = Returned PyNone (sample [1; 2])).
Proof. exact (add_batch_like_extend [3; 4] (sample [1; 2]) eq_refl). Defined.

Lemma appends_like_extend_witness :
  items_of (run_all [CallAppend 3; CallAppend 4] (sample [1; 2]))
  = [1; 2; 3; 4]
  ∧ (∃ s', extend [3; 4] (sample [1; 2]) = Returned PyNone s'
           ∧ items_of (run_all [CallAppend 3; CallAppend 4] (sample [1; 2]))
             = items_of s'
           ∧ _change_event (run_all [CallAppend 3; CallAppend 4]
                                    (sample [1; 2]))
             = _change_event s').
Proof.
  destruct (appends_like_extend [3; 4] (sample [1; 2]) eq_refl)
    as [Hitems Hext].
  split; [exact Hitems|]. by apply Hext.
Defined.

Lemma wait_after_mutation_witness :
  ∃ s1, exec (CallAppend 3) (sample [1; 2]) = Returned VSelf s1
        ∧ (∀ start lag env,
             wait_for_change None start lag env s1
             = Returned true (cleared s1))
        ∧ (∀ t env,
             wait_for_change (Some (S t)) 0 0 env s1
             = Returned true (cleared s1)).
Proof.
  eexists. split; [reflexivity|].
  eapply (wait_after_mutation (CallAppend 3) (sample [1; 2])); reflexivity.
Defined.

Lemma init_then_iterate_witness :
  ∃ s s', __init__ (heap (sample [1; 2])) (ObjList 1%positive) = Constructed s
          ∧ async_for [[]; [CallAppend 3]; []] __aiter__ s
            = ([1; 2], AGenClosed, s').
Proof.
  apply (init_then_iterate (heap (sample [1; 2])) 1%positive [1; 2]
           [[]; [CallAppend 3]; []]); [reflexivity|simpl; lia].
Defined.

Lemma insert_past_end_is_append_witness :
  (∃ s1 s2, insert 7 9 (sample [1; 2]) = Returned PyNone s1
            ∧ append 9 (sample [1; 2]) = Returned PySelf s2
            ∧ items_of s1 = [1; 2; 9]
            ∧ items_of s2 = [1; 2; 9]
            ∧ _items s1 = _items s2)
  ∧ insert (2 ^ 63) 9 (sample [1; 2])
    = Raised OverflowError (after_lock (sample [1; 2])).
Proof.
  split.
  - apply (proj1 (insert_past_end_is_append 7 9 (sample [1; 2]) eq_refl
                    ltac:(unfold len; rewrite items_of_sample; simpl; lia))).
    reflexivity.
  - apply (proj2 (insert_past_end_is_append (2 ^ 63) 9 (sample [1; 2]) eq_refl
                    ltac:(unfold len; rewrite items_of_sample; simpl; lia))).
    + unfold len. rewrite items_of_sample. simpl. lia.
    + reflexivity.
Defined.

Lemma delete_all_then_absent_witness :
  ∃ s1, delete_all 1 (sample [1; 2; 1]) = Returned PyNone s1
        ∧ contains 1 s1 = Returned false (after_lock s1)
        ∧ count 1 s1 = Returned 0 (after_lock s1)
        ∧ remove 1 s1 = Raised AsyncioListError (after_lock s1).
Proof.
  apply (delete_all_then_absent 1 (sample [1; 2; 1]) eq_refl).
  intros y _ Hne. simpl in Hne. apply negb_true_iff in Hne.
  unfold matches. simpl. rewrite Hne, orb_false_r.
  apply bool_decide_eq_false. by apply Z.eqb_neq.
Defined.

(** Where [!=] and the matching of [contains] part ways, as on a NaN,
    [delete_all] leaves the element in and [contains] still finds it. *)
Example delete_all_nan_stays :
  ∃ s1, delete_all NaN (sample_floats [NaN; Float 1]) = Returned PyNone s1
        ∧ items_of s1 = [NaN; Float 1]
        ∧ contains NaN s1 = Returned true (after_lock s1)
        ∧ count NaN s1 = Returned 1 (after_lock s1).
Proof. eexists. split_and!; reflexivity. Qed.

Lemma pop_default_drains_witness :
  (∃ s', pop_default (sample [1; 2; 3]) = Returned 3 s'
         ∧ items_of s' = [1; 2] ∧ _change_event s' = true)
  ∧ (∃ s', drain 3 (sample [1; 2; 3]) = ([3; 2; 1], s') ∧ items_of s' = [])
  ∧ pop_default (sample [])
    = Raised IndexOutOfBoundsError (after_lock (sample [])).
Proof.
  split_and!.
  - apply (proj1 (pop_default_drains (sample [1; 2; 3]) eq_refl) [1; 2] 3).
    reflexivity.
  - apply (proj1 (proj2 (pop_default_drains (sample [1; 2; 3]) eq_refl))).
  - apply (proj2 (proj2 (pop_default_drains (sample []) eq_refl))).
    reflexivity.
Defined.

Lemma pop_index_law_witness :
  (∃ x s', [1; 2; 3] !! 1%nat = Some x
           ∧ pop (-2) (sample [1; 2; 3]) = Returned x s'
           ∧ items_of s' = [1; 3]
           ∧ _change_event s' = true)
  ∧ pop (-4) (sample [1; 2; 3])
    = Raised IndexOutOfBoundsError (after_lock (sample [1; 2; 3]))
  ∧ pop (2 ^ 63) (sample [1; 2; 3])
    = Raised OverflowError (after_lock (sample [1; 2; 3]))
  ∧ - 3 ≤ 2 < 3.
Proof.
  split_and!.
  - apply (proj1 (pop_index_law (-2) (sample [1; 2; 3]) eq_refl)).
    unfold len. rewrite items_of_sample. simpl. lia.
  - apply (proj1 (proj2 (pop_index_law (-4) (sample [1; 2; 3]) eq_refl))).
    + unfold len. rewrite items_of_sample. simpl. lia.
    + reflexivity.
  - apply (proj1 (proj2 (pop_index_law (2 ^ 63) (sample [1; 2; 3]) eq_refl))).
    + unfold len. rewrite items_of_sample. simpl. lia.
    + reflexivity.
    + unfold len. rewrite items_of_sample. simpl. lia.
  - eapply (proj2 (proj2 (pop_index_law 2 (sample [1; 2; 3]) eq_refl))).
    reflexivity.
  - eapply (proj2 (proj2 (pop_index_law 2 (sample [1; 2; 3]) eq_refl))).
    reflexivity.
Defined.

Lemma insert_clamps_witness :
  ∃ s', insert (-10) 9 (sample [1; 2; 3]) = Returned PyNone s'
        ∧ items_of s' = [9; 1; 2; 3]
        ∧ _change_event s' = true
        ∧ (-10 ≤ - 3 → items_of s' = [9; 1; 2; 3])
        ∧ (- 3 ≤ -10 < 0 → items_of s' !! Z.to_nat (-10 + 3) = Some 9).
Proof.
  exact (proj2 (insert_clamps (-10) 9 (sample [1; 2; 3]) eq_refl) eq_refl).
Defined.

End AsyncioListUsage.
